(** * Order status bot: the order store, the tool layer and the turn
      orchestrator of [order_status_bot], embedded from
      [orders.py], [models.py], [llm.py] and [app.py].

    Python strings are modelled by [string]; a character is a code point
    below 256 (the Latin-1 range of Unicode), on which the classes [\d] and
    [\w] of [re] and [str.lower] are tabulated below.  Module-level
    dictionaries are [gmap]s, exceptions are values of [exn], and every
    function that touches module state or a list object runs in the
    state-and-exception monad [M]. *)

From Stdlib Require Import ZArith Ascii String List Bool Lia.
From stdpp Require Import base option gmap strings list fin_maps.

Set Warnings "-register-all".

Local Open Scope string_scope.
Local Open Scope list_scope.

(** ** models.py *)

Module Models.

(** [Literal["processing", "shipped", "canceled"]] *)
Inductive Status := processing | shipped | canceled.

#[export] Instance Status_eq_dec : EqDecision Status.
Proof. solve_decision. Defined.

Definition status_str (s : Status) : string :=
  match s with
  | processing => "processing"
  | shipped => "shipped"
  | canceled => "canceled"
  end.

(** Validation of a [str] against the [Literal] type of [Order.status]. *)
Definition parse_status (s : string) : option Status :=
  if String.eqb s "processing" then Some processing
  else if String.eqb s "shipped" then Some shipped
  else if String.eqb s "canceled" then Some canceled
  else None.

Record Order := mkOrder {
  order_id : string;
  status : Status;
  item : string
}.

(** [Literal["user", "assistant", "tool"]] *)
Inductive Role := user | assistant | tool.

#[export] Instance Role_eq_dec : EqDecision Role.
Proof. solve_decision. Defined.

Definition role_str (r : Role) : string :=
  match r with
  | user => "user"
  | assistant => "assistant"
  | tool => "tool"
  end.

Record Message := mkMessage {
  role : Role;
  content : string;
  tool_name : option string
}.

Module FindOrderResult.
Record t := mk { found : bool; order : option Order }.
End FindOrderResult.

Module CancelOrderResult.
Record t := mk { ok : bool; reason : option string; order : option Order }.
End CancelOrderResult.

(** Values produced by [json.loads] and by [model_dump]: Python's
    [None], [bool], [int], [float] (kept as its binary64 bit pattern),
    [str], [list] and [dict] with string keys. *)
Inductive json :=
| JNone
| JBool (b : bool)
| JInt (z : Z)
| JFloat (bits : Z)
| JStr (s : string)
| JList (l : list json)
| JDict (d : gmap string json).

Definition dump_order (o : Order) : json :=
  JDict (<["order_id" := JStr (order_id o)]>
        (<["status" := JStr (status_str (status o))]>
        (<["item" := JStr (item o)]> ∅))).

Definition dump_optional {A} (f : A → json) (x : option A) : json :=
  match x with Some a => f a | None => JNone end.

(** [FindOrderResult.model_dump()] *)
Definition dump_find (r : FindOrderResult.t) : json :=
  JDict (<["found" := JBool (FindOrderResult.found r)]>
        (<["order" := dump_optional dump_order (FindOrderResult.order r)]> ∅)).

(** [CancelOrderResult.model_dump()] *)
Definition dump_cancel (r : CancelOrderResult.t) : json :=
  JDict (<["ok" := JBool (CancelOrderResult.ok r)]>
        (<["reason" := dump_optional JStr (CancelOrderResult.reason r)]>
        (<["order" := dump_optional dump_order (CancelOrderResult.order r)]> ∅))).

End Models.
Export Models.

(** ** Python runtime: exceptions, module state and list objects *)

(** [ValueError] carries the fixed part of its message. *)
Inductive exn :=
| ValidationError
| ValueError (msg : string)
| TypeError
| AttributeError
| IndexError
| FileNotFoundError
| HTTPException (status_code : nat).

Inductive result (A : Type) :=
| Ok (a : A)
| Raise (e : exn).
Arguments Ok {A} a.
Arguments Raise {A} e.

(** A reference to a Python [list] object holding messages. *)
Definition loc := positive.

(** [Conversation]: its identifier and the reference to its [messages]. *)
Record Conversation := mkConversation {
  conversation_id : string;
  messages : loc
}.

(** The module globals [orders.ORDERS], [orders.OVERRIDES] and
    [app.CONVERSATIONS], and the heap of list objects (a conversation's
    [messages] is one of them; the argument [messages] of [chat_turn] is a
    reference into this heap). *)
Record World := mkWorld {
  ORDERS : gmap string Order;
  OVERRIDES : gmap string string;
  CONVERSATIONS : gmap string Conversation;
  heap : gmap loc (list Message)
}.

Definition M (A : Type) : Type := World → result A * World.

#[export] Instance M_ret : MRet M := λ A a w, (Ok a, w).
#[export] Instance M_bind : MBind M := λ A B f m w,
  match m w with
  | (Ok a, w') => f a w'
  | (Raise e, w') => (Raise e, w')
  end.

#[export] Instance M_fmap : FMap M := λ A B f m w,
  match m w with
  | (Ok a, w') => (Ok (f a), w')
  | (Raise e, w') => (Raise e, w')
  end.

Definition raise {A} (e : exn) : M A := λ w, (Raise e, w).

(** [try: m except E: h] for the exceptions selected by [catches]. *)
Definition try_except {A} (m : M A) (catches : exn → bool) (h : exn → M A) : M A :=
  λ w, match m w with
       | (Ok a, w') => (Ok a, w')
       | (Raise e, w') => if catches e then h e w' else (Raise e, w')
       end.

Definition gets {A} (f : World → A) : M A := λ w, (Ok (f w), w).
Definition modify (f : World → World) : M unit := λ w, (Ok tt, f w).

Definition set_ORDERS (f : gmap string Order → gmap string Order) : M unit :=
  modify (λ w, mkWorld (f (ORDERS w)) (OVERRIDES w) (CONVERSATIONS w) (heap w)).
Definition set_OVERRIDES (f : gmap string string → gmap string string) : M unit :=
  modify (λ w, mkWorld (ORDERS w) (f (OVERRIDES w)) (CONVERSATIONS w) (heap w)).

(** Reading a list object; a dangling reference cannot be written in
    Python, the model answers it with [TypeError]. *)
Definition list_read (l : loc) : M (list Message) :=
  λ w, match heap w !! l with
       | Some ms => (Ok ms, w)
       | None => (Raise TypeError, w)
       end.

(** [l.append(m)] *)
Definition list_append (l : loc) (m : Message) : M unit :=
  ms ← list_read l;
  modify (λ w, mkWorld (ORDERS w) (OVERRIDES w) (CONVERSATIONS w)
                      (<[l := ms ++ [m]]> (heap w))).

(** A new empty list object: a reference no list object has yet. *)
Definition list_new : M loc :=
  λ w, let l := fresh (dom (heap w)) in
       (Ok l, mkWorld (ORDERS w) (OVERRIDES w) (CONVERSATIONS w)
                      (<[l := []]> (heap w))).

(** [for x in xs: body(x)] *)
Fixpoint for_each {A} (xs : list A) (body : A → M unit) : M unit :=
  match xs with
  | [] => mret tt
  | x :: xs' => body x ;; for_each xs' body
  end.

(** Truth value of an [Optional[str]]: [None] and the empty string are
    false.  Returns the string when it is true. *)
Definition truthy (x : option string) : option string :=
  match x with
  | Some "" => None
  | Some s => Some s
  | None => None
  end.

(** ** orders.py *)

Module Orders.

(** A row of [csv.DictReader]: field name to cell, [None] for a cell the
    line is too short to have. *)
Abbreviation Row := (gmap string (option string)).

(** [row.get(k)] *)
Definition row_get (k : string) (row : Row) : option string :=
  mjoin (row !! k).

(** [Order(order_id=.., status=.., item=..)] from three strings: pydantic
    checks [status] against the literal type. *)
Definition Order_new (oid st it : string) : M Order :=
  match parse_status st with
  | Some s => mret (mkOrder oid s it)
  | None => raise ValidationError
  end.

Definition load_row (row : Row) : M unit :=
  let order_id := row_get "order_id" row in
  let status := row_get "status" row in
  let item := row_get "item" row in
  match truthy order_id, truthy status, truthy item with
  | Some oid, Some st, Some it =>
      order ← Order_new oid st it;
      orders ← gets ORDERS;
      match orders !! oid with
      | None => set_ORDERS (insert oid order)
      | Some _ => mret tt
      end
  | _, _, _ => mret tt
  end.

(** [csv] is [None] when [CSV_PATH] does not exist, otherwise the rows
    the reader yields. *)
Definition _load_orders (csv : option (list Row)) : M unit :=
  set_ORDERS (λ _, ∅) ;;
  match csv with
  | None => raise FileNotFoundError
  | Some reader => for_each reader load_row
  end.

Definition get_order (order_id : string) : M (option Order) :=
  let oid := order_id in
  orders ← gets ORDERS;
  match orders !! oid with
  | None => mret None
  | Some order =>
      overrides ← gets OVERRIDES;
      match overrides !! oid with
      | Some override =>
          o ← Order_new oid override (item order); mret (Some o)
      | None => mret (Some order)
      end
  end.

Definition cancel_order (order_id : string) : M CancelOrderResult.t :=
  order ← get_order order_id;
  match order with
  | None => mret (CancelOrderResult.mk false (Some "not_found") None)
  | Some order =>
      if bool_decide (status order ∈ [shipped; canceled])
      then mret (CancelOrderResult.mk false (Some "immutable_status") (Some order))
      else
        set_OVERRIDES (insert order_id "canceled") ;;
        updated ← Order_new order_id "canceled" (item order);
        mret (CancelOrderResult.mk true None (Some updated))
  end.

(** The state of the process once [orders] has been imported:
    [ORDERS = {}], [OVERRIDES = {}], then [_load_orders()]. *)
Definition import_orders (csv : option (list Row))
    (cs : gmap string Conversation) (h : gmap loc (list Message))
  : result unit * World :=
  _load_orders csv (mkWorld ∅ ∅ cs h).

End Orders.
Export Orders.

(** ** Strings: [str.lower], [in], and the pattern [\b(\d+)\b] of [re] *)

Module Text.

Definition code (c : ascii) : N := N_of_ascii c.

Definition between (lo hi : N) (c : ascii) : bool :=
  (lo <=? code c)%N && (code c <=? hi)%N.

(** [\d]: the decimal digits; below 256 these are [0-9]. *)
Definition is_digit (c : ascii) : bool := between 48 57 c.

(** [\w]: alphanumeric characters and the underscore.  Below 256 the
    alphanumerics are [0-9A-Za-z], the letters of Latin-1 and its
    superscript digits, ordinal indicators, micro sign and fractions. *)
Definition is_word (c : ascii) : bool :=
  between 48 57 c || between 65 90 c || between 97 122 c || (code c =? 95)%N
  || (code c =? 170)%N || between 178 179 c || (code c =? 181)%N
  || between 185 186 c || between 188 190 c
  || between 192 214 c || between 216 246 c || between 248 255 c.

(** [str.lower] on one character: [A-Z] and the capital letters of
    Latin-1 move up by 32, every other character below 256 is fixed. *)
Definition lower_char (c : ascii) : ascii :=
  if between 65 90 c || between 192 214 c || between 216 222 c
  then ascii_of_N (code c + 32)
  else c.

Fixpoint lower (s : string) : string :=
  match s with
  | EmptyString => EmptyString
  | String c s' => String (lower_char c) (lower s')
  end.

(** [sub in s] *)
Fixpoint contains (sub s : string) : bool :=
  if String.prefix sub s then true
  else match s with
       | EmptyString => false
       | String _ s' => contains sub s'
       end.

Definition head (s : string) : option ascii :=
  match s with
  | EmptyString => None
  | String c _ => Some c
  end.

Definition word_at (c : option ascii) : bool :=
  match c with
  | Some c => is_word c
  | None => false
  end.

(** [\b] at the position between [prev] and [next] ([None] at either end
    of the string): exactly one side is a word character. *)
Definition boundary (prev next : option ascii) : bool :=
  xorb (word_at prev) (word_at next).

(** The rest of [(\d+)\b] once a digit [prev] has been taken: the greedy
    repeat takes one more digit first and gives it back when what follows
    fails; then [\b] is tried where it stands.  Returns the digits taken
    from [s]. *)
Fixpoint match_more (prev : ascii) (s : string) : option string :=
  let stop := if boundary (Some prev) (head s) then Some EmptyString else None in
  match s with
  | String c s' =>
      if is_digit c then
        match match_more c s' with
        | Some d => Some (String c d)
        | None => stop
        end
      else stop
  | EmptyString => stop
  end.

(** One attempt of [\b(\d+)\b] at the position between [prev] and [s];
    returns group 1. *)
Definition match_here (prev : option ascii) (s : string) : option string :=
  if boundary prev (head s) then
    match s with
    | String c s' =>
        if is_digit c then String c <$> match_more c s' else None
    | EmptyString => None
    end
  else None.

(** [re.search]: the attempts at every position, from left to right. *)
Fixpoint search_from (prev : option ascii) (s : string) : option string :=
  match match_here prev s with
  | Some d => Some d
  | None =>
      match s with
      | String c s' => search_from (Some c) s'
      | EmptyString => None
      end
  end.

(** [m = re.search(r"\b(\d+)\b", content); m.group(1) if m else None] *)
Definition re_search_digits (content : string) : option string :=
  search_from None content.

End Text.
Export Text.

(** ** llm.py *)

(** The part of the [openai] client the orchestrator uses. *)
Module OpenAI.
Record FunctionCall := mkFunctionCall { name : string; arguments : string }.
Record ChatMessage := mkChatMessage {
  content : option string;
  function_call : option FunctionCall
}.
Record Choice := mkChoice { finish_reason : string; message : ChatMessage }.
Record Response := mkResponse { choices : list Choice }.
Record Request := mkRequest {
  model : string;
  messages : list json;
  functions : option (list json);
  function_call_mode : option string;
  temperature : Z
}.
(** [client.chat.completions.create(..)]: a reply or an exception of the
    client.  The client receives the request only, never the history
    object. *)
Record Client := mkClient { create : Request → result Response }.
End OpenAI.

Module Llm.

Module FindOrderInput.
Record t := mk { order_id : string }.
End FindOrderInput.

Module CancelOrderInput.
Record t := mk { order_id : string }.
End CancelOrderInput.

(** Building an input model, whose only field is [order_id: str], from
    the unpacked [args]: unpacking needs a mapping; the field is required
    and must be a [str] (no coercion from other JSON values); other keys
    are ignored. *)
Definition validate_order_id (args : json) : M string :=
  match args with
  | JDict d =>
      match d !! "order_id" with
      | Some (JStr s) => mret s
      | _ => raise ValidationError
      end
  | _ => raise TypeError
  end.

Definition is_ValidationError (e : exn) : bool :=
  match e with ValidationError => true | _ => false end.

Definition find_order_tool (args : json) : M FindOrderResult.t :=
  input_model ←
    try_except (FindOrderInput.mk <$> validate_order_id args)
      is_ValidationError
      (λ _, raise (ValueError "Invalid input for find_order"));
  order ← get_order (FindOrderInput.order_id input_model);
  match order with
  | Some order => mret (FindOrderResult.mk true (Some order))
  | None => mret (FindOrderResult.mk false None)
  end.

Definition cancel_order_tool (args : json) : M CancelOrderResult.t :=
  input_model ←
    try_except (CancelOrderInput.mk <$> validate_order_id args)
      is_ValidationError
      (λ _, raise (ValueError "Invalid input for cancel_order"));
  cancel_order (CancelOrderInput.order_id input_model).

Definition _system_prompt : string :=
  "You are an order assistant. Use the available tools to look up or cancel " +:+
  "orders. Never invent order data. If the user requests to cancel an order " +:+
  "that is already shipped or canceled, explain that the order cannot be canceled.".

Definition function_spec (name description id_description : string) : json :=
  JDict (<["name" := JStr name]>
        (<["description" := JStr description]>
        (<["parameters" :=
             JDict (<["type" := JStr "object"]>
                   (<["properties" :=
                        JDict (<["order_id" :=
                          JDict (<["type" := JStr "string"]>
                                (<["description" := JStr id_description]> ∅))]> ∅)]>
                   (<["required" := JList [JStr "order_id"]]> ∅)))]> ∅))).

Definition _build_functions_spec : list json :=
  [ function_spec "find_order" "Look up an order by order_id in the system."
      "The ID of the order to look up.";
    function_spec "cancel_order" "Cancel an existing order if it is still processing."
      "The ID of the order to cancel." ].

(** [Message(role=.., content=..)] with a content that may be [None]. *)
Definition Message_new (r : Role) (c : option string) (tn : option string) : M Message :=
  match c with
  | Some c => mret (mkMessage r c tn)
  | None => raise ValidationError
  end.

Definition lift {A} (r : result A) : M A := λ w, (r, w).

(** [xs[0]] *)
Definition first {A} (xs : list A) : M A :=
  match xs with
  | x :: _ => mret x
  | [] => raise IndexError
  end.

(** [x.attr] on an optional object. *)
Definition deref {A} (x : option A) : M A :=
  match x with
  | Some a => mret a
  | None => raise AttributeError
  end.

Definition openai_message (msg : Message) : json :=
  match role msg with
  | tool =>
      JDict (<["role" := JStr "tool"]>
            (<["content" := JStr (content msg)]>
            (<["name" := dump_optional JStr (tool_name msg)]> ∅)))
  | r =>
      JDict (<["role" := JStr (role_str r)]>
            (<["content" := JStr (content msg)]> ∅))
  end.

Definition _fallback_chat_turn (messages : loc) : M (Message * option json) :=
  ms ← list_read messages;
  match ms with
  | [] => mret (mkMessage assistant "Hello! What can I help you with?" None, None)
  | _ :: _ =>
      last_message ← match last ms with
                      | Some m => mret m
                      | None => raise IndexError
                      end;
      if negb (bool_decide (role last_message = user))
      then mret (mkMessage assistant "Awaiting your instructions." None, None)
      else
        let content := lower (content last_message) in
        match re_search_digits content with
        | None => mret (mkMessage assistant "Please provide an order ID." None, None)
        | Some order_id =>
            if contains "cancel" content then
              result ← cancel_order_tool (JDict {["order_id" := JStr order_id]});
              msg ←
                (if CancelOrderResult.ok result
                 then mret ("Order " +:+ order_id +:+ " has been canceled successfully.")
                 else if bool_decide (CancelOrderResult.reason result = Some "not_found")
                 then mret ("I couldn't find an order with ID " +:+ order_id +:+ ".")
                 else
                   o ← deref (CancelOrderResult.order result);
                   mret ("Order " +:+ order_id +:+ " cannot be canceled because it is "
                           +:+ status_str (status o) +:+ "."));
              mret (mkMessage assistant msg None, Some (dump_cancel result))
            else
              result ← find_order_tool (JDict {["order_id" := JStr order_id]});
              msg ←
                (if FindOrderResult.found result
                 then
                   o ← deref (FindOrderResult.order result);
                   mret ("Order " +:+ order_id +:+ " is currently "
                           +:+ status_str (status o) +:+ ".")
                 else mret ("I couldn't find an order with ID " +:+ order_id +:+ "."));
              mret (mkMessage assistant msg None, Some (dump_find result))
        end
  end.

Section Orchestrator.

(** [os.environ.get("OPENAI_API_KEY")] *)
Variable OPENAI_API_KEY : option string.
(** the module [openai], [None] when the import failed *)
Variable openai : option OpenAI.Client.
(** [json.loads]: [None] for [JSONDecodeError] *)
Variable json_loads : string → option json.
(** [result.json()], given [result.model_dump()] *)
Variable model_json : json → string.

(** Setting [client.api_key] touches the client only and is left out. *)
Definition chat_turn (messages : loc) : M (Message * option json) :=
  match truthy OPENAI_API_KEY, openai with
  | Some api_key, Some client =>
      ms ← list_read messages;
      let openai_messages := openai_message <$> ms in
      let openai_messages :=
        [JDict (<["role" := JStr "system"]>
               (<["content" := JStr _system_prompt]> ∅))] ++ openai_messages in
      response ← lift (OpenAI.create client
        (OpenAI.mkRequest "gpt-3.5-turbo-0613" openai_messages
           (Some _build_functions_spec) (Some "auto") 0));
      choice ← first (OpenAI.choices response);
      if String.eqb (OpenAI.finish_reason choice) "function_call" then
        fc ← deref (OpenAI.function_call (OpenAI.message choice));
        let fn_name := OpenAI.name fc in
        let fn_args_json := OpenAI.arguments fc in
        match json_loads fn_args_json with
        | None =>
            mret (mkMessage assistant "Sorry, I couldn't parse the tool arguments." None,
                  None)
        | Some args_dict =>
            let continue (result : json) : M (Message * option json) :=
              let tool_message := mkMessage tool (model_json result) (Some fn_name) in
              let followup_messages := openai_messages ++
                [JDict (<["role" := JStr "tool"]>
                       (<["content" := JStr (content tool_message)]>
                       (<["name" := dump_optional JStr (tool_name tool_message)]> ∅)))] in
              followup_response ← lift (OpenAI.create client
                (OpenAI.mkRequest "gpt-3.5-turbo-0613" followup_messages None None 0));
              c ← first (OpenAI.choices followup_response);
              let final_content := OpenAI.content (OpenAI.message c) in
              assistant ← Message_new assistant final_content None;
              mret (assistant, Some result) in
            if String.eqb fn_name "find_order" then
              result ← find_order_tool args_dict; continue (dump_find result)
            else if String.eqb fn_name "cancel_order" then
              result ← cancel_order_tool args_dict; continue (dump_cancel result)
            else
              mret (mkMessage assistant ("Unknown tool " +:+ fn_name +:+ ".") None, None)
        end
      else
        assistant ← Message_new assistant (OpenAI.content (OpenAI.message choice)) None;
        mret (assistant, None)
  | _, _ => _fallback_chat_turn messages
  end.

End Orchestrator.

End Llm.
Export Llm.

(** ** app.py *)

Module App.

Module AssistantMessageResponse.
Record t := mk { assistant : string; tool_result : option json }.
End AssistantMessageResponse.

Module CreateConversationResponse.
Record t := mk { conversation_id : string }.
End CreateConversationResponse.

Module ConversationMessagesResponse.
Record t := mk { messages : list Message }.
End ConversationMessagesResponse.

(** [create_conversation]; [uuid4] is the text of the identifier that
    [uuid.uuid4()] draws for the new [Conversation]. *)
Definition create_conversation (uuid4 : string) : M CreateConversationResponse.t :=
  l ← list_new;
  let conv := mkConversation uuid4 l in
  let conv_id := conversation_id conv in
  modify (λ w, mkWorld (ORDERS w) (OVERRIDES w)
                       (<[conv_id := conv]> (CONVERSATIONS w)) (heap w)) ;;
  mret (CreateConversationResponse.mk conv_id).

Definition get_messages (conversation_id : string)
  : M ConversationMessagesResponse.t :=
  convs ← gets CONVERSATIONS;
  match convs !! conversation_id with
  | None => raise (HTTPException 404)
  | Some conv =>
      ms ← list_read (messages conv);
      let visible_messages :=
        filter (λ m, role m ∈ [user; assistant]) ms in
      mret (ConversationMessagesResponse.mk visible_messages)
  end.

Section Routes.

Variable OPENAI_API_KEY : option string.
Variable openai : option OpenAI.Client.
Variable json_loads : string → option json.
Variable model_json : json → string.
(** [json.dumps] *)
Variable json_dumps : json → string.

Definition post_message (conversation_id : string) (request_content : string)
  : M AssistantMessageResponse.t :=
  convs ← gets CONVERSATIONS;
  match convs !! conversation_id with
  | None => raise (HTTPException 404)
  | Some conv =>
      let user_msg := mkMessage user request_content None in
      list_append (messages conv) user_msg ;;
      turn ← chat_turn OPENAI_API_KEY openai json_loads model_json (messages conv);
      let '(assistant_msg, tool_result) := turn in
      match tool_result with
      | Some tr =>
          let tool_message := mkMessage tool (json_dumps tr) (Some "tool") in
          list_append (messages conv) tool_message
      | None => mret tt
      end ;;
      list_append (messages conv) assistant_msg ;;
      mret (AssistantMessageResponse.mk (content assistant_msg) tool_result)
  end.

End Routes.

End App.
Export App.

(** * Vocabulary of the properties *)

(** ** States of the store *)

(** Every base record is filed under its own identifier. *)
Definition orders_keyed (w : World) : Prop :=
  map_Forall (λ k o, order_id o = k) (ORDERS w).

(** Every override is one of the three statuses. *)
Definition overrides_valid (w : World) : Prop :=
  map_Forall (λ _ s, is_Some (parse_status s)) (OVERRIDES w).

(** The states of the store: what importing [orders] establishes and every
    operation keeps. *)
Definition store_wf (w : World) : Prop := orders_keyed w ∧ overrides_valid w.

#[global] Instance store_wf_dec (w : World) : Decision (store_wf w).
Proof. unfold store_wf, orders_keyed, overrides_valid. apply _. Defined.

(** From [w] to [w']: no list object and no conversation is touched, the
    base records stay, and the overrides stay statuses. *)
Definition frame (w w' : World) : Prop :=
  heap w' = heap w ∧ CONVERSATIONS w' = CONVERSATIONS w ∧ ORDERS w' = ORDERS w
  ∧ (overrides_valid w → overrides_valid w').

Definition framed {A} (m : M A) : Prop := ∀ w, frame w (m w).2.

(** ** Rows of the CSV file *)

(** The three cells of a complete row: each present and not empty. *)
Definition row_fields (r : Row) : option (string * string * string) :=
  match truthy (row_get "order_id" r), truthy (row_get "status" r),
        truthy (row_get "item" r) with
  | Some oid, Some st, Some it => Some (oid, st, it)
  | _, _, _ => None
  end.

Definition with_order (k : string) (o : Order) (w : World) : World :=
  mkWorld (<[k := o]> (ORDERS w)) (OVERRIDES w) (CONVERSATIONS w) (heap w).

(** Every complete row carries one of the three statuses. *)
Definition statuses_valid (rows : list Row) : Prop :=
  ∀ r oid st it, r ∈ rows → row_fields r = Some (oid, st, it) →
    is_Some (parse_status st).

(** [r] is the first complete row for [k] and [o] is its record. *)
Definition first_seen (rows : list Row) (k : string) (o : Order) : Prop :=
  ∃ pre r post st it s,
    rows = pre ++ r :: post ∧ row_fields r = Some (k, st, it) ∧
    parse_status st = Some s ∧ o = mkOrder k s it ∧
    ∀ r' st' it', r' ∈ pre → row_fields r' ≠ Some (k, st', it').

(** ** Histories of the store *)

(** The two entry points of the store, and what a call returned. *)
Inductive op :=
| OpGet (oid : string)
| OpCancel (oid : string).

Inductive outcome :=
| OutGet (r : result (option Order))
| OutCancel (r : result CancelOrderResult.t).

Definition step (o : op) (w : World) : outcome * World :=
  match o with
  | OpGet k => let '(r, w') := get_order k w in (OutGet r, w')
  | OpCancel k => let '(r, w') := cancel_order k w in (OutCancel r, w')
  end.

(** The calls [ops] made one after the other: what each returned, and the
    state they leave. *)
Fixpoint run (ops : list op) (w : World) : list outcome * World :=
  match ops with
  | [] => ([], w)
  | o :: ops' =>
      let '(out, w1) := step o w in
      let '(outs, w2) := run ops' w1 in
      (out :: outs, w2)
  end.

(** Among the calls [ops], with outcomes [outs], one was a call of
    [cancel_order] on [k] that returned [ok=True]. *)
Definition canceled_in (ops : list op) (outs : list outcome) (k : string) : Prop :=
  ∃ i r, ops !! i = Some (OpCancel k) ∧ outs !! i = Some (OutCancel (Ok r))
         ∧ CancelOrderResult.ok r = true.

Definition overrides_canceled (w : World) : Prop :=
  map_Forall (λ _ s, s = "canceled") (OVERRIDES w).

(** ** Digit tokens *)

(** A run of decimal digits. *)
Fixpoint all_digits (s : string) : bool :=
  match s with
  | EmptyString => true
  | String c s' => is_digit c && all_digits s'
  end.

(** The character before the position that follows [pre], when [prev]
    (if any) is the character before [pre]. *)
Fixpoint last_char (prev : option ascii) (pre : string) : option ascii :=
  match pre with
  | EmptyString => prev
  | String c pre' => last_char (Some c) pre'
  end.

(** In the words of the specification: [s] splits as [pre], [d], [post]
    where [d] is a non-empty run of digits with no word character next to
    it on either side.  [prev] is the character before [s], if any. *)
Definition token (prev : option ascii) (s pre d post : string) : Prop :=
  s = pre +:+ d +:+ post ∧ d ≠ "" ∧ all_digits d = true
  ∧ word_at (last_char prev pre) = false ∧ word_at (head post) = false.

(** [d] is the leftmost word-bounded run of digits of [s]. *)
Definition leftmost_token (s d : string) : Prop :=
  ∃ pre post, token None s pre d post
    ∧ ∀ pre' d' post', token None s pre' d' post' →
        (String.length pre ≤ String.length pre')%nat.

(** No decimal digit anywhere in the string. *)
Fixpoint no_digit (s : string) : bool :=
  match s with
  | EmptyString => true
  | String c s' => negb (is_digit c) && no_digit s'
  end.

(** ** Results and replies *)

(** The tagged result [find_order_tool] builds from an answer of the
    store. *)
Definition found_result (o : option Order) : FindOrderResult.t :=
  FindOrderResult.mk (match o with Some _ => true | None => false end) o.

(** An assistant message with the given text. *)
Definition says (text : string) : Message := mkMessage assistant text None.

(** ** Requests to the engine *)

(** The first request of a turn on the history [ms]. *)
Definition first_request (ms : list Message) : OpenAI.Request :=
  OpenAI.mkRequest "gpt-3.5-turbo-0613"
    ([JDict (<["role" := JStr "system"]>
            (<["content" := JStr _system_prompt]> ∅))]
     ++ (openai_message <$> ms))
    (Some _build_functions_spec) (Some "auto") 0.

(** The engine asks for a tool call [fc]. *)
Definition requests_call (client : OpenAI.Client) (ms : list Message)
    (fc : OpenAI.FunctionCall) : Prop :=
  ∃ resp choice rest,
    OpenAI.create client (first_request ms) = Ok resp
    ∧ OpenAI.choices resp = choice :: rest
    ∧ OpenAI.finish_reason choice = "function_call"
    ∧ OpenAI.function_call (OpenAI.message choice) = Some fc.

(** The follow-up request of a turn on the history [ms], after the tool
    [fn_name] gave a result whose JSON text is [text]. *)
Definition followup_request (ms : list Message) (fn_name text : string)
  : OpenAI.Request :=
  OpenAI.mkRequest "gpt-3.5-turbo-0613"
    (([JDict (<["role" := JStr "system"]>
             (<["content" := JStr _system_prompt]> ∅))]
      ++ (openai_message <$> ms))
     ++ [JDict (<["role" := JStr "tool"]>
               (<["content" := JStr text]>
               (<["name" := JStr fn_name]> ∅)))])
    None None 0.

(** The engine answers the first request with [choice]. *)
Definition first_choice (client : OpenAI.Client) (ms : list Message)
    (choice : OpenAI.Choice) : Prop :=
  ∃ resp rest,
    OpenAI.create client (first_request ms) = Ok resp
    ∧ OpenAI.choices resp = choice :: rest.

(** ** Postconditions and conversations *)

(** Whenever [m] returns, what it returns satisfies [P]. *)
Definition ensures {A} (P : A → Prop) (m : M A) : Prop :=
  ∀ w a w', m w = (Ok a, w') → P a.

(** A reply: an assistant message without a tool name, with or without
    a tool result. *)
Definition is_reply (r : Message * option json) : Prop :=
  role r.1 = assistant ∧ tool_name r.1 = None.

(** What [get_messages] shows of a history. *)
Definition visible (ms : list Message) : list Message :=
  filter (λ m, role m ∈ [user; assistant]) ms.

(** Every conversation has its list object, and no two conversations
    share one. *)
Definition convs_wf (w : World) : Prop :=
  map_Forall (λ cid c,
    is_Some (heap w !! messages c)
    ∧ map_Forall (λ cid' c', messages c = messages c' → cid = cid')
        (CONVERSATIONS w))
    (CONVERSATIONS w).

#[global] Instance convs_wf_dec (w : World) : Decision (convs_wf w).
Proof. unfold convs_wf. apply _. Defined.

(** The state in which the turn of [post_message] runs: the user message
    has been appended to the list of the conversation. *)
Definition with_user_message (w : World) (conv : Conversation)
    (ms : list Message) (text : string) : World :=
  mkWorld (ORDERS w) (OVERRIDES w) (CONVERSATIONS w)
    (<[messages conv := ms ++ [mkMessage user text None]]> (heap w)).

(** The messages [post_message] appends after the user message: the tool
    message when a tool ran, and the reply. *)
Definition turn_messages (json_dumps : json → string) (a : Message)
    (tr : option json) : list Message :=
  match tr with
  | Some t => [mkMessage tool (json_dumps t) (Some "tool")]
  | None => []
  end ++ [a].

(** ** Sample data *)

(** A store in the shape the test-suite expects of [orders.csv]: order
    12345 is shipped, order 23456 is processing, order 99999 does not
    exist; one conversation whose history is a single user message. *)
Module Sample.

Definition row (a b c : string) : Row :=
  <["order_id" := Some a]> (<["status" := Some b]> (<["item" := Some c]> ∅)).

Definition csv : list Row :=
  [ row "12345" "shipped" "phone";
    row "23456" "processing" "case";
    row "34567" "canceled" "charger" ].

Definition conversations : gmap string Conversation :=
  {[ "c1" := mkConversation "c1" 1%positive ]}.

Definition history : list Message :=
  [ mkMessage user "Please cancel order 23456" None ].

Definition world : World :=
  (import_orders (Some csv) conversations {[ 1%positive := history ]}).2.

(** The same store after order 23456 has been canceled. *)
Definition world_canceled : World := (cancel_order "23456" world).2.

End Sample.

(** An engine that always asks for [find_order] with the arguments [{}]
    (an empty JSON object). *)
Module SampleEngine.

Definition client : OpenAI.Client :=
  OpenAI.mkClient (λ _,
    Ok (OpenAI.mkResponse
          [OpenAI.mkChoice "function_call"
             (OpenAI.mkChatMessage None
                (Some (OpenAI.mkFunctionCall "find_order" "{}")))])).

(** [json.loads] on the one text this engine sends. *)
Definition json_loads (s : string) : option json :=
  if String.eqb s "{}" then Some (JDict ∅) else None.

Definition model_json (_ : json) : string := "".

End SampleEngine.

(** Engines for the examples: one that answers in text, one that asks
    for [cancel_order] on order 23456 and then answers in text, one whose
    call fails. *)
Module SampleReplies.

Definition text_reply (text : string) : result OpenAI.Response :=
  Ok (OpenAI.mkResponse
        [OpenAI.mkChoice "stop" (OpenAI.mkChatMessage (Some text) None)]).

Definition direct : OpenAI.Client :=
  OpenAI.mkClient (λ _, text_reply "How can I help?").

Definition canceling : OpenAI.Client :=
  OpenAI.mkClient (λ req,
    match OpenAI.functions req with
    | Some _ =>
        Ok (OpenAI.mkResponse
              [OpenAI.mkChoice "function_call"
                 (OpenAI.mkChatMessage None
                    (Some (OpenAI.mkFunctionCall "cancel_order" "23456")))])
    | None => text_reply "Your order has been canceled."
    end).

Definition failing : OpenAI.Client :=
  OpenAI.mkClient (λ _, Raise TypeError).

(** A decoder for the one argument text [canceling] sends; it stands for
    [json.loads] on the object with [order_id] set to that text. *)
Definition json_loads (s : string) : option json :=
  Some (JDict {[ "order_id" := JStr s ]}).

Definition model_json (_ : json) : string := "".

End SampleReplies.

(** * Properties *)

Ltac munfold :=
  unfold mbind, M_bind, mret, M_ret, fmap, M_fmap, raise, gets, modify,
    set_ORDERS, set_OVERRIDES, try_except, lift, deref, first in *.

(** ** The order store *)

Section OrderStore.

Implicit Types (w : World) (oid : string).

Lemma parse_status_str (s : Status) : parse_status (status_str s) = Some s.
Proof. by destruct s. Qed.

Lemma get_order_frame oid w : (get_order oid w).2 = w.
Proof.
  unfold get_order, Order_new. munfold.
  destruct (ORDERS w !! oid) as [b|]; [|done].
  destruct (OVERRIDES w !! oid) as [s|]; [|done].
  by destruct (parse_status s).
Qed.

Lemma get_order_absent oid w :
  ORDERS w !! oid = None → get_order oid w = (Ok None, w).
Proof. intros H. unfold get_order. munfold. by rewrite H. Qed.

Lemma get_order_plain oid w b :
  ORDERS w !! oid = Some b → OVERRIDES w !! oid = None →
  get_order oid w = (Ok (Some b), w).
Proof. intros H1 H2. unfold get_order. munfold. by rewrite H1, H2. Qed.

Lemma get_order_overridden oid w b s st :
  ORDERS w !! oid = Some b → OVERRIDES w !! oid = Some s →
  parse_status s = Some st →
  get_order oid w = (Ok (Some (mkOrder oid st (item b))), w).
Proof.
  intros H1 H2 H3. unfold get_order, Order_new. munfold.
  by rewrite H1, H2, H3.
Qed.

Lemma get_order_invalid oid w b s :
  ORDERS w !! oid = Some b → OVERRIDES w !! oid = Some s →
  parse_status s = None →
  get_order oid w = (Raise ValidationError, w).
Proof.
  intros H1 H2 H3. unfold get_order, Order_new. munfold.
  by rewrite H1, H2, H3.
Qed.

(** In a well-formed store [get_order] returns, and what it returns is
    decided by the two dictionaries. *)
Lemma get_order_returns oid w :
  overrides_valid w → ∃ r, get_order oid w = (Ok r, w).
Proof.
  intros Hv.
  destruct (ORDERS w !! oid) as [b|] eqn:Hb.
  - destruct (OVERRIDES w !! oid) as [s|] eqn:Hs.
    + destruct (Hv _ _ Hs) as [st Hst].
      eexists. by eapply get_order_overridden.
    + eexists. by eapply get_order_plain.
  - eexists. by apply get_order_absent.
Qed.

(** An order [get_order] returns has the item of the base record. *)
Lemma get_order_Some oid w o :
  (get_order oid w).1 = Ok (Some o) →
  ∃ b, ORDERS w !! oid = Some b ∧ item o = item b
       ∧ (OVERRIDES w !! oid = None → o = b)
       ∧ (∀ s, OVERRIDES w !! oid = Some s →
            parse_status s = Some (status o) ∧ order_id o = oid).
Proof.
  destruct (ORDERS w !! oid) as [b|] eqn:Hb.
  - destruct (OVERRIDES w !! oid) as [s|] eqn:Hs.
    + destruct (parse_status s) as [st|] eqn:Hst.
      * rewrite (get_order_overridden _ _ _ _ _ Hb Hs Hst). simpl.
        intros [= <-]. exists b. simpl.
        split; [done|]. split; [done|]. split; [congruence|].
        intros s' [= <-]. done.
      * by rewrite (get_order_invalid _ _ _ _ Hb Hs Hst).
    + rewrite (get_order_plain _ _ _ Hb Hs). simpl. intros [= <-].
      exists b. split; [done|]. split; [done|]. split; [done|].
      intros s' [=].
  - by rewrite (get_order_absent _ _ Hb).
Qed.

(** What [cancel_order] does, by the outcome of [get_order]. *)
Lemma cancel_order_absent oid w :
  get_order oid w = (Ok None, w) →
  cancel_order oid w = (Ok (CancelOrderResult.mk false (Some "not_found") None), w).
Proof. intros H. unfold cancel_order. munfold. by rewrite H. Qed.

Lemma cancel_order_immutable oid w o :
  get_order oid w = (Ok (Some o), w) → status o ≠ processing →
  cancel_order oid w =
    (Ok (CancelOrderResult.mk false (Some "immutable_status") (Some o)), w).
Proof.
  intros H Hs. unfold cancel_order. munfold. rewrite H.
  by destruct (status o).
Qed.

Lemma cancel_order_processing oid w o :
  get_order oid w = (Ok (Some o), w) → status o = processing →
  cancel_order oid w =
    (Ok (CancelOrderResult.mk true None (Some (mkOrder oid canceled (item o)))),
     mkWorld (ORDERS w) (<[oid := "canceled"]> (OVERRIDES w))
             (CONVERSATIONS w) (heap w)).
Proof.
  intros H Hs. unfold cancel_order, Order_new. munfold. rewrite H, Hs.
  reflexivity.
Qed.

Lemma cancel_order_raises oid w e :
  get_order oid w = (Raise e, w) → cancel_order oid w = (Raise e, w).
Proof. intros H. unfold cancel_order. munfold. by rewrite H. Qed.

Lemma get_order_pair oid w : get_order oid w = ((get_order oid w).1, w).
Proof.
  rewrite <- (get_order_frame oid w) at 3. by destruct (get_order oid w).
Qed.

(** The four ways a call of [cancel_order] can go. *)
Lemma cancel_order_inv oid w :
  (get_order oid w = (Ok None, w) ∧
   cancel_order oid w =
     (Ok (CancelOrderResult.mk false (Some "not_found") None), w))
  ∨ (∃ o, get_order oid w = (Ok (Some o), w) ∧ status o ≠ processing ∧
       cancel_order oid w =
         (Ok (CancelOrderResult.mk false (Some "immutable_status") (Some o)), w))
  ∨ (∃ o, get_order oid w = (Ok (Some o), w) ∧ status o = processing ∧
       cancel_order oid w =
         (Ok (CancelOrderResult.mk true None (Some (mkOrder oid canceled (item o)))),
          mkWorld (ORDERS w) (<[oid := "canceled"]> (OVERRIDES w))
                  (CONVERSATIONS w) (heap w)))
  ∨ (∃ e, get_order oid w = (Raise e, w) ∧ cancel_order oid w = (Raise e, w)).
Proof.
  pose proof (get_order_pair oid w) as Hg.
  destruct (get_order oid w).1 as [[o|]|e].
  - destruct (decide (status o = processing)) as [Hp|Hp].
    + right; right; left. exists o. eauto using cancel_order_processing.
    + right; left. exists o. eauto using cancel_order_immutable.
  - left. eauto using cancel_order_absent.
  - right; right; right. exists e. eauto using cancel_order_raises.
Qed.

End OrderStore.

(** ** Claims about the order store *)

(** C3. [get_order] returns [None] exactly when there is no base record;
    with a base record and an override it returns a new order carrying the
    override's status and the base record's identifier and item; with a
    base record and no override it returns the base record itself; it
    leaves the store as it found it, so that a call made after any number
    of other lookups, and no cancellation, returns what the first call
    returned. *)
Theorem get_order_contract (w : World) (oid : string) :
  store_wf w →
  ((get_order oid w).1 = Ok None ↔ ORDERS w !! oid = None)
  ∧ (∀ b s, ORDERS w !! oid = Some b → OVERRIDES w !! oid = Some s →
       ∃ st, parse_status s = Some st ∧
         (get_order oid w).1 = Ok (Some (mkOrder (order_id b) st (item b))))
  ∧ (∀ b, ORDERS w !! oid = Some b → OVERRIDES w !! oid = None →
       (get_order oid w).1 = Ok (Some b))
  ∧ (get_order oid w).2 = w
  ∧ (∀ ids : list string,
       (for_each ids (λ i, get_order i ;; mret tt) ;; get_order oid) w
       = get_order oid w).
Proof.
  intros [Hk Hv]. split; [|split; [|split; [|split]]].
  - split.
    + intros H. destruct (ORDERS w !! oid) as [b|] eqn:Hb; [|done].
      destruct (OVERRIDES w !! oid) as [s|] eqn:Hs.
      * destruct (Hv _ _ Hs) as [st Hst].
        by rewrite (get_order_overridden _ _ _ _ _ Hb Hs Hst) in H.
      * by rewrite (get_order_plain _ _ _ Hb Hs) in H.
    + intros H. by rewrite (get_order_absent _ _ H).
  - intros b s Hb Hs. destruct (Hv _ _ Hs) as [st Hst]. exists st.
    split; [done|]. rewrite (get_order_overridden _ _ _ _ _ Hb Hs Hst).
    simpl. by rewrite (Hk _ _ Hb).
  - intros b Hb Hs. by rewrite (get_order_plain _ _ _ Hb Hs).
  - apply get_order_frame.
  - intros ids.
    assert (for_each ids (λ i, get_order i ;; mret tt) w = (Ok tt, w)) as Hl.
    { induction ids as [|i ids IH]; [done|]. simpl. munfold.
      destruct (get_order_returns i w Hv) as [r ->]. exact IH. }
    munfold. by rewrite Hl.
Qed.

Lemma get_order_contract_witness :
  store_wf Sample.world_canceled
  ∧ (get_order "23456" Sample.world_canceled).1
    = Ok (Some (mkOrder "23456" canceled "case")).
Proof.
  assert (store_wf Sample.world_canceled) as Hwf.
  { apply (bool_decide_unpack _). vm_compute. exact I. }
  split; [exact Hwf|].
  destruct (get_order_contract Sample.world_canceled "23456" Hwf)
    as (_ & Hov & _).
  destruct (Hov (mkOrder "23456" processing "case") "canceled") as (st & Hst & ->).
  - vm_compute. reflexivity.
  - vm_compute. reflexivity.
  - vm_compute in Hst. by injection Hst as <-.
Defined.

(** C1. [cancel_order] follows its three steps.  [get_order] returns; if
    it returns [None] the result is [ok=False, reason="not_found"] without
    an order and nothing is written; if the effective order is shipped or
    canceled the result is [ok=False, reason="immutable_status"] with that
    very order and nothing is written; if it is processing, the override
    [order_id -> "canceled"] is recorded, nothing else changes, and the
    result is [ok=True] without a reason, with the base order whose status
    is replaced by canceled. *)
Theorem cancel_order_contract (w : World) (oid : string) :
  store_wf w →
  (∃ r, get_order oid w = (Ok r, w))
  ∧ (get_order oid w = (Ok None, w) →
       cancel_order oid w =
         (Ok (CancelOrderResult.mk false (Some "not_found") None), w))
  ∧ (∀ o, get_order oid w = (Ok (Some o), w) →
       status o = shipped ∨ status o = canceled →
       cancel_order oid w =
         (Ok (CancelOrderResult.mk false (Some "immutable_status") (Some o)), w))
  ∧ (∀ o, get_order oid w = (Ok (Some o), w) → status o = processing →
       ∃ b, ORDERS w !! oid = Some b ∧
         cancel_order oid w =
           (Ok (CancelOrderResult.mk true None
                  (Some (mkOrder (order_id b) canceled (item b)))),
            mkWorld (ORDERS w) (<[oid := "canceled"]> (OVERRIDES w))
                    (CONVERSATIONS w) (heap w))).
Proof.
  intros [Hk Hv]. split; [|split; [|split]].
  - by apply get_order_returns.
  - apply cancel_order_absent.
  - intros o Hg Hs. apply cancel_order_immutable; [done|].
    destruct Hs as [-> | ->]; done.
  - intros o Hg Hs.
    destruct (get_order_Some oid w o) as (b & Hb & Hi & _); [by rewrite Hg|].
    exists b. split; [done|].
    rewrite (cancel_order_processing _ _ _ Hg Hs).
    by rewrite (Hk _ _ Hb), Hi.
Qed.

Lemma cancel_order_contract_witness :
  store_wf Sample.world
  ∧ (cancel_order "23456" Sample.world).1
    = Ok (CancelOrderResult.mk true None (Some (mkOrder "23456" canceled "case"))).
Proof.
  assert (store_wf Sample.world) as Hwf.
  { apply (bool_decide_unpack _). vm_compute. exact I. }
  split; [exact Hwf|].
  destruct (cancel_order_contract Sample.world "23456" Hwf) as (_ & _ & _ & Hp).
  destruct (Hp (mkOrder "23456" processing "case")) as (b & Hb & ->).
  - vm_compute. reflexivity.
  - reflexivity.
  - vm_compute in Hb. by injection Hb as <-.
Defined.

(** C10. A call of [cancel_order] that returns [ok=False] has reason
    [not_found] or [immutable_status] and leaves the whole state, so
    [ORDERS] and [OVERRIDES], exactly as it was: [get_order] answers every
    identifier after the call as it did before. *)
Theorem cancel_order_failure_atomic (w w' : World) (oid : string)
    (r : CancelOrderResult.t) :
  cancel_order oid w = (Ok r, w') →
  CancelOrderResult.ok r = false →
  (CancelOrderResult.reason r = Some "not_found"
   ∨ CancelOrderResult.reason r = Some "immutable_status")
  ∧ w' = w
  ∧ ORDERS w' = ORDERS w ∧ OVERRIDES w' = OVERRIDES w
  ∧ (∀ i, get_order i w' = get_order i w).
Proof.
  intros Hc Hok.
  destruct (cancel_order_inv oid w)
    as [[_ H] | [(o & _ & _ & H) | [(o & _ & _ & H) | (e & _ & H)]]];
    rewrite H in Hc; simplify_eq/=; auto 10.
Qed.

Lemma cancel_order_failure_atomic_witness :
  (cancel_order "12345" Sample.world).2 = Sample.world
  ∧ (cancel_order "99999" Sample.world).2 = Sample.world.
Proof.
  split.
  - eapply (cancel_order_failure_atomic Sample.world _ "12345"
              (CancelOrderResult.mk false (Some "immutable_status")
                 (Some (mkOrder "12345" shipped "phone")))).
    + vm_compute. reflexivity.
    + reflexivity.
  - eapply (cancel_order_failure_atomic Sample.world _ "99999"
              (CancelOrderResult.mk false (Some "not_found") None)).
    + vm_compute. reflexivity.
    + reflexivity.
Defined.

(** ** The loader *)

Section Loader.

Implicit Types (w : World) (r : Row) (rows : list Row).

Lemma load_row_incomplete r w : row_fields r = None → load_row r w = (Ok tt, w).
Proof.
  unfold row_fields, load_row. intros H.
  destruct (truthy (row_get "order_id" r)); [|done].
  destruct (truthy (row_get "status" r)); [|done].
  by destruct (truthy (row_get "item" r)).
Qed.

Lemma load_row_invalid r w oid st it :
  row_fields r = Some (oid, st, it) → parse_status st = None →
  load_row r w = (Raise ValidationError, w).
Proof.
  unfold row_fields, load_row, Order_new. intros H Hp.
  destruct (truthy (row_get "order_id" r)); [|done].
  destruct (truthy (row_get "status" r)); [|done].
  destruct (truthy (row_get "item" r)); [|done].
  simplify_eq. munfold. by rewrite Hp.
Qed.

Lemma load_row_complete r w oid st it s :
  row_fields r = Some (oid, st, it) → parse_status st = Some s →
  load_row r w =
    (Ok tt, match ORDERS w !! oid with
            | None => with_order oid (mkOrder oid s it) w
            | Some _ => w
            end).
Proof.
  unfold row_fields, load_row, Order_new. intros H Hp.
  destruct (truthy (row_get "order_id" r)); [|done].
  destruct (truthy (row_get "status" r)); [|done].
  destruct (truthy (row_get "item" r)); [|done].
  simplify_eq. munfold. rewrite Hp.
  by destruct (ORDERS w !! oid).
Qed.

Lemma first_seen_nil k o : ¬ first_seen [] k o.
Proof. intros (pre & r & post & ? & ? & ? & H & _). by destruct pre. Qed.

Lemma first_seen_skip r rows k o :
  (∀ st it, row_fields r ≠ Some (k, st, it)) →
  first_seen (r :: rows) k o ↔ first_seen rows k o.
Proof.
  intros Hr. split.
  - intros (pre & r0 & post & st & it & s & Heq & Hf & Hp & Ho & Hpre).
    destruct pre as [|p pre]; simplify_eq/=.
    + by destruct (Hr st it).
    + exists pre, r0, post, st, it, s. repeat split; try done.
      intros r' ? ? Hin. apply Hpre. by right.
  - intros (pre & r0 & post & st & it & s & Heq & Hf & Hp & Ho & Hpre).
    exists (r :: pre), r0, post, st, it, s. subst. repeat split; try done.
    intros r' st' it' [->|Hin]%elem_of_cons; [apply Hr|by apply Hpre].
Qed.

Lemma first_seen_here r rows k st it s o :
  row_fields r = Some (k, st, it) → parse_status st = Some s →
  first_seen (r :: rows) k o ↔ o = mkOrder k s it.
Proof.
  intros Hf Hp. split.
  - intros (pre & r0 & post & st0 & it0 & s0 & Heq & Hf0 & Hp0 & Ho & Hpre).
    destruct pre as [|p pre]; simplify_eq/=; [done|].
    destruct (Hpre p st it); [by left|done].
  - intros ->. exists [], r, rows, st, it, s. repeat split; try done.
    intros r' ? ? Hin. by apply elem_of_nil in Hin.
Qed.

(** The loop of [_load_orders], from any state: records already present
    are kept, the others are the first-seen ones. *)
Lemma for_each_load_row rows w :
  statuses_valid rows →
  ∃ w', for_each rows load_row w = (Ok tt, w')
    ∧ OVERRIDES w' = OVERRIDES w ∧ CONVERSATIONS w' = CONVERSATIONS w
    ∧ heap w' = heap w
    ∧ ∀ k o, ORDERS w' !! k = Some o ↔
        ORDERS w !! k = Some o ∨ (ORDERS w !! k = None ∧ first_seen rows k o).
Proof.
  revert w. induction rows as [|r rows IH]; intros w Hv.
  - exists w. repeat split; try done.
    + by left.
    + intros [?|[_ []%first_seen_nil]]. done.
  - assert (statuses_valid rows) as Hv'.
    { intros r' ? ? ? Hin. apply (Hv r'). by right. }
    simpl. munfold.
    destruct (row_fields r) as [[[oid st] it]|] eqn:Hf.
    + destruct (Hv r oid st it) as [s Hs]; [by left|done|].
      rewrite (load_row_complete _ _ _ _ _ _ Hf Hs).
      destruct (ORDERS w !! oid) as [o0|] eqn:Ho0.
      * destruct (IH w Hv') as (w' & -> & ? & ? & ? & Hlook).
        exists w'. repeat split; try done.
        -- intros [?|[Hn Hfs]]%Hlook; [by left|]. right. split; [done|].
           apply first_seen_skip; [|done]. intros ? ? ?. congruence.
        -- intros [?|[Hn Hfs]]; apply Hlook; [by left|]. right. split; [done|].
           apply first_seen_skip in Hfs; [done|]. intros ? ? ?. congruence.
      * destruct (IH (with_order oid (mkOrder oid s it) w) Hv')
          as (w' & -> & ? & ? & ? & Hlook).
        exists w'. repeat split; try done.
        -- intros [Hin|[Hn Hfs]]%Hlook; simpl in *.
           ++ destruct (decide (oid = k)) as [->|Hne].
              ** rewrite lookup_insert_eq in Hin. simplify_eq.
                 right. split; [done|]. by eapply first_seen_here.
              ** rewrite lookup_insert_ne in Hin by done. by left.
           ++ destruct (decide (oid = k)) as [->|Hne].
              ** by rewrite lookup_insert_eq in Hn.
              ** rewrite lookup_insert_ne in Hn by done. right. split; [done|].
                 apply first_seen_skip; [|done]. intros ? ? ?. congruence.
        -- intros Hk. apply Hlook. simpl.
           destruct (decide (oid = k)) as [->|Hne].
           ++ left. rewrite lookup_insert_eq.
              destruct Hk as [?|[_ Hfs]]; [congruence|].
              eapply first_seen_here in Hfs; [|done..]. by subst.
           ++ rewrite lookup_insert_ne by done.
              destruct Hk as [?|[Hn Hfs]]; [by left|]. right. split; [done|].
              apply first_seen_skip in Hfs; [done|]. intros ? ? ?. congruence.
    + rewrite (load_row_incomplete _ _ Hf).
      destruct (IH w Hv') as (w' & -> & ? & ? & ? & Hlook).
      exists w'. repeat split; try done.
      * intros [?|[Hn Hfs]]%Hlook; [by left|]. right. split; [done|].
        apply first_seen_skip; [|done]. intros ? ?. congruence.
      * intros [?|[Hn Hfs]]; apply Hlook; [by left|]. right. split; [done|].
        apply first_seen_skip in Hfs; [done|]. intros ? ?. congruence.
Qed.

(** A row the guard rejects does not change what the loop does. *)
Lemma for_each_load_row_skip pre r post w :
  row_fields r = None →
  for_each (pre ++ r :: post) load_row w = for_each (pre ++ post) load_row w.
Proof.
  intros Hf. revert w. induction pre as [|p pre IH]; intros w; simpl; munfold.
  - by rewrite (load_row_incomplete _ _ Hf).
  - destruct (load_row p w) as [[[]|e] w1]; [apply IH|done].
Qed.

End Loader.

(** ** Loading a file *)

(** X27. A row in which [order_id], [status] or [item] is missing or
    empty is skipped: the load goes as if the row were not there, whatever
    else the file holds.  When every complete row carries one of the three
    statuses the load returns, and the store holds under each identifier
    the record of the first complete row with that identifier, later ones
    being ignored. *)
Theorem load_orders_first_seen (cs : gmap string Conversation)
    (h : gmap loc (list Message)) :
  (∀ pre r post, row_fields r = None →
     import_orders (Some (pre ++ r :: post)) cs h
     = import_orders (Some (pre ++ post)) cs h)
  ∧ (∀ rows, statuses_valid rows →
       ∃ w', import_orders (Some rows) cs h = (Ok tt, w')
         ∧ OVERRIDES w' = ∅
         ∧ ∀ k o, ORDERS w' !! k = Some o ↔ first_seen rows k o).
Proof.
  split.
  - intros pre r post Hf. unfold import_orders, _load_orders. munfold. simpl.
    by apply for_each_load_row_skip.
  - intros rows Hv. unfold import_orders, _load_orders. munfold. simpl.
    destruct (for_each_load_row rows (mkWorld ∅ ∅ cs h) Hv)
      as (w' & -> & Hov & _ & _ & Hlook).
    exists w'. split; [done|]. split; [done|].
    intros k o. rewrite Hlook. simpl. rewrite lookup_empty.
    split; [by intros [?|[_ ?]] | by right].
Qed.

Lemma load_orders_first_seen_witness :
  statuses_valid (Sample.csv ++ [Sample.row "12345" "canceled" "tablet"; ∅])
  ∧ ORDERS (import_orders
              (Some (Sample.csv ++ [Sample.row "12345" "canceled" "tablet"; ∅]))
              ∅ ∅).2 !! "12345"
    = Some (mkOrder "12345" shipped "phone").
Proof.
  assert (statuses_valid
            (Sample.csv ++ [Sample.row "12345" "canceled" "tablet"; ∅])) as Hv.
  { intros r oid st it Hin Hf.
    repeat (apply elem_of_cons in Hin as [->|Hin]);
      [vm_compute in Hf; simplify_eq; vm_compute; eauto ..|].
    by apply elem_of_nil in Hin. }
  split; [exact Hv|].
  destruct (load_orders_first_seen ∅ ∅) as [_ Hload].
  destruct (Hload _ Hv) as (w' & -> & _ & Hlook). simpl.
  apply Hlook.
  exists [], (Sample.row "12345" "shipped" "phone"),
    (List.tl Sample.csv ++ [Sample.row "12345" "canceled" "tablet"; ∅]),
    "shipped", "phone", shipped.
  repeat split; try done.
  intros r' ? ? Hin. by apply elem_of_nil in Hin.
Defined.

(** A row that has all three cells but a status outside the three
    literals is not skipped: the construction of its [Order] raises and the
    import stops there. *)
Lemma load_orders_invalid_status_raises :
  row_fields (Sample.row "45678" "delivered" "cable") = Some ("45678", "delivered", "cable")
  ∧ (import_orders (Some (Sample.csv ++ [Sample.row "45678" "delivered" "cable"])) ∅ ∅).1
    = Raise ValidationError.
Proof. split; vm_compute; reflexivity. Qed.

(** ** The store invariant *)

Section Invariant.

Implicit Types (w : World) (oid : string).

Lemma load_row_keyed r w : orders_keyed w → orders_keyed (load_row r w).2.
Proof.
  intros Hk. destruct (row_fields r) as [[[oid st] it]|] eqn:Hf.
  - destruct (parse_status st) as [s|] eqn:Hs.
    + rewrite (load_row_complete _ _ _ _ _ _ Hf Hs).
      destruct (ORDERS w !! oid) eqn:Ho; [done|]. simpl.
      unfold orders_keyed, with_order. simpl. by apply map_Forall_insert_2.
    + by rewrite (load_row_invalid _ _ _ _ _ Hf Hs).
  - by rewrite (load_row_incomplete _ _ Hf).
Qed.

Lemma load_row_overrides r w : OVERRIDES (load_row r w).2 = OVERRIDES w.
Proof.
  destruct (row_fields r) as [[[oid st] it]|] eqn:Hf.
  - destruct (parse_status st) as [s|] eqn:Hs.
    + rewrite (load_row_complete _ _ _ _ _ _ Hf Hs).
      by destruct (ORDERS w !! oid).
    + by rewrite (load_row_invalid _ _ _ _ _ Hf Hs).
  - by rewrite (load_row_incomplete _ _ Hf).
Qed.

Lemma for_each_load_row_wf rows w :
  orders_keyed w →
  orders_keyed (for_each rows load_row w).2
  ∧ OVERRIDES (for_each rows load_row w).2 = OVERRIDES w.
Proof.
  revert w. induction rows as [|r rows IH]; intros w Hk; [done|].
  simpl. munfold.
  pose proof (load_row_keyed r w Hk) as Hk1.
  pose proof (load_row_overrides r w) as Ho1.
  destruct (load_row r w) as [[[]|e] w1]; simpl in *.
  - destruct (IH w1 Hk1) as [? ->]. done.
  - done.
Qed.

(** Importing [orders] leaves a well-formed store, whatever the file
    holds and even when the load stops on an exception. *)
Lemma import_orders_wf csv cs h : store_wf (import_orders csv cs h).2.
Proof.
  unfold import_orders, _load_orders. munfold. simpl. destruct csv as [rows|].
  - destruct (for_each_load_row_wf rows (mkWorld ∅ ∅ cs h)) as [Hk Ho].
    { apply map_Forall_empty. }
    split; [done|]. unfold overrides_valid. rewrite Ho. apply map_Forall_empty.
  - split; apply map_Forall_empty.
Qed.

(** [cancel_order] writes nothing or the one override. *)
Lemma cancel_order_effect oid w :
  (cancel_order oid w).2 = w
  ∨ (cancel_order oid w).2 =
      mkWorld (ORDERS w) (<[oid := "canceled"]> (OVERRIDES w))
              (CONVERSATIONS w) (heap w).
Proof.
  destruct (cancel_order_inv oid w)
    as [[_ H] | [(o & _ & _ & H) | [(o & _ & _ & H) | (e & _ & H)]]];
    rewrite H; auto.
Qed.

Lemma cancel_order_wf oid w : store_wf w → store_wf (cancel_order oid w).2.
Proof.
  intros [Hk Hv]. destruct (cancel_order_effect oid w) as [-> | ->]; [done|].
  split; [done|]. unfold overrides_valid. simpl.
  apply map_Forall_insert_2; [by eexists|done].
Qed.

End Invariant.

(** ** Histories of the store: facts *)

Section Histories.

Implicit Types (w : World) (k oid : string) (ops : list op).

Lemma overrides_canceled_valid w : overrides_canceled w → overrides_valid w.
Proof. intros H k s Hs. rewrite (H _ _ Hs). by eexists. Qed.

Lemma run_app ops1 ops2 w :
  run (ops1 ++ ops2) w =
    ((run ops1 w).1 ++ (run ops2 (run ops1 w).2).1, (run ops2 (run ops1 w).2).2).
Proof.
  revert w. induction ops1 as [|o ops1 IH]; intros w; simpl.
  - by destruct (run ops2 w).
  - destruct (step o w) as [out w1]. rewrite IH.
    by destruct (run ops1 w1).
Qed.

Lemma run_length ops w : length (run ops w).1 = length ops.
Proof.
  revert w. induction ops as [|o ops IH]; intros w; simpl; [done|].
  destruct (step o w) as [out w1]. specialize (IH w1).
  destruct (run ops w1). simpl in *. by rewrite IH.
Qed.

(** A successful cancellation finds a base record, a processing effective
    order, and leaves the override. *)
Lemma cancel_order_ok oid w r w' :
  cancel_order oid w = (Ok r, w') → CancelOrderResult.ok r = true →
  is_Some (ORDERS w !! oid)
  ∧ w' = mkWorld (ORDERS w) (<[oid := "canceled"]> (OVERRIDES w))
                 (CONVERSATIONS w) (heap w).
Proof.
  intros Hc Hok.
  destruct (cancel_order_inv oid w)
    as [[_ H] | [(o & _ & _ & H) | [(o & Hg & _ & H) | (e & _ & H)]]];
    rewrite H in Hc; simplify_eq/=.
  split; [|done].
  destruct (get_order_Some oid w o) as (b & Hb & _); [by rewrite Hg|by eexists].
Qed.

(** With an override [canceled] in place, the order reads as canceled and
    cannot be canceled again. *)
Lemma canceled_override oid w b :
  ORDERS w !! oid = Some b → OVERRIDES w !! oid = Some "canceled" →
  get_order oid w = (Ok (Some (mkOrder oid canceled (item b))), w)
  ∧ cancel_order oid w =
      (Ok (CancelOrderResult.mk false (Some "immutable_status")
             (Some (mkOrder oid canceled (item b)))), w).
Proof.
  intros Hb Ho.
  assert (get_order oid w = (Ok (Some (mkOrder oid canceled (item b))), w)) as Hg.
  { by eapply get_order_overridden. }
  split; [done|]. by apply cancel_order_immutable.
Qed.

(** One call: the base records stay; the overrides stay, or the call is a
    successful [cancel_order] and its override is added. *)
Lemma step_effect o w :
  ORDERS (step o w).2 = ORDERS w
  ∧ (OVERRIDES (step o w).2 = OVERRIDES w
     ∨ ∃ k r, o = OpCancel k ∧ (step o w).1 = OutCancel (Ok r)
         ∧ CancelOrderResult.ok r = true
         ∧ OVERRIDES w !! k ≠ Some "canceled"
         ∧ OVERRIDES (step o w).2 = <[k := "canceled"]> (OVERRIDES w)).
Proof.
  destruct o as [k|k]; simpl.
  - rewrite (get_order_pair k w). auto.
  - destruct (cancel_order_inv k w)
      as [[_ H] | [(o & _ & _ & H) | [(o & Hg & Hp & H) | (e & _ & H)]]];
      rewrite H; simpl; auto.
    split; [done|]. right. eexists k, _. repeat split; try done.
    intros Hov.
    destruct (get_order_Some k w o) as (b & Hb & _); [by rewrite Hg|].
    destruct (canceled_override k w b Hb Hov) as [Hg' _].
    rewrite Hg in Hg'. by simplify_eq/=.
Qed.

Lemma step_overrides_canceled o w :
  overrides_canceled w → overrides_canceled (step o w).2.
Proof.
  intros Hc. destruct (step_effect o w) as [_ [Ho | (k & r & _ & _ & _ & _ & Ho)]];
    unfold overrides_canceled; rewrite Ho; [done|].
  by apply map_Forall_insert_2.
Qed.

(** Overrides are monotone: in a state whose overrides are all
    [canceled], no sequence of calls removes or changes one. *)
Lemma run_monotone ops w k s :
  overrides_canceled w → OVERRIDES w !! k = Some s →
  OVERRIDES (run ops w).2 !! k = Some s
  ∧ overrides_canceled (run ops w).2
  ∧ ORDERS (run ops w).2 = ORDERS w.
Proof.
  revert w. induction ops as [|o ops IH]; intros w Hc Hs; simpl; [done|].
  pose proof (step_overrides_canceled o w Hc) as Hc1.
  destruct (step_effect o w) as [Hord Hov].
  destruct (step o w) as [out w1]. simpl in *.
  assert (OVERRIDES w1 !! k = Some s) as Hs1.
  { destruct Hov as [-> | (k' & r & _ & _ & _ & _ & ->)]; [done|].
    destruct (decide (k' = k)) as [->|Hne].
    - rewrite lookup_insert_eq. by rewrite (Hc _ _ Hs).
    - by rewrite lookup_insert_ne. }
  destruct (IH w1 Hc1 Hs1) as (? & ? & ?).
  destruct (run ops w1). simpl in *. repeat split; [done..|congruence].
Qed.

Lemma run_orders ops w : ORDERS (run ops w).2 = ORDERS w.
Proof.
  revert w. induction ops as [|o ops IH]; intros w; simpl; [done|].
  destruct (step_effect o w) as [Hord _].
  destruct (step o w) as [out w1]. specialize (IH w1).
  destruct (run ops w1). simpl in *. congruence.
Qed.

(** From a state without overrides: every override is [canceled] and was
    written by a successful call of [cancel_order] on its identifier. *)
Lemma run_overrides_origin ops w :
  OVERRIDES w = ∅ →
  ∀ k s, OVERRIDES (run ops w).2 !! k = Some s →
    s = "canceled" ∧ canceled_in ops (run ops w).1 k.
Proof.
  intros Hemp. induction ops as [|o ops IH] using rev_ind; intros k s.
  - simpl. by rewrite Hemp, lookup_empty.
  - rewrite run_app. simpl.
    pose proof (run_length ops w) as Hlen.
    destruct (run ops w) as [outs w1]. simpl in *.
    destruct (step_effect o w1) as [_ Hov].
    destruct (step o w1) as [out w2]. simpl in *.
    assert (∀ k, canceled_in ops outs k → canceled_in (ops ++ [o]) (outs ++ [out]) k)
      as Hmono.
    { intros k' (i & r & Hi & Ho & Hok). exists i, r.
      rewrite !lookup_app_l; [done| |]; by eapply lookup_lt_Some. }
    destruct Hov as [-> | (k' & r & -> & -> & Hok & _ & ->)].
    + intros [-> Hin]%IH. auto.
    + destruct (decide (k' = k)) as [->|Hne].
      * rewrite lookup_insert_eq. intros [= <-]. split; [done|].
        exists (length ops), r.
        rewrite !lookup_app_r by lia. rewrite Hlen, Nat.sub_diag. done.
      * rewrite lookup_insert_ne by done. intros [-> Hin]%IH. auto.
Qed.

Lemma run_overrides_canceled ops w :
  OVERRIDES w = ∅ → overrides_canceled (run ops w).2.
Proof.
  intros Hemp k s Hs. by destruct (run_overrides_origin ops w Hemp k s Hs).
Qed.

(** After a successful call of [cancel_order] on [k] the override of [k]
    is there, and there is a base record. *)
Lemma run_canceled_in ops w k :
  overrides_canceled w → canceled_in ops (run ops w).1 k →
  OVERRIDES (run ops w).2 !! k = Some "canceled"
  ∧ is_Some (ORDERS (run ops w).2 !! k).
Proof.
  intros Hc (i & r & Hi & Ho & Hok).
  revert w i Hc Hi Ho. induction ops as [|o ops IH]; intros w i Hc Hi Ho; [done|].
  simpl in *.
  pose proof (step_overrides_canceled o w Hc) as Hc1.
  destruct (step_effect o w) as [Hord _].
  destruct (step o w) as [out w1] eqn:Hstep.
  pose proof (run_monotone ops w1 k "canceled" Hc1) as Hmon.
  pose proof (run_orders ops w1) as Hords.
  destruct (run ops w1) as [outs w2] eqn:Hrun. simpl in *.
  destruct i as [|i]; simpl in *.
  - simplify_eq/=.
    destruct (cancel_order k w) as [r' w'] eqn:Hcan. simplify_eq/=.
    destruct (cancel_order_ok _ _ _ _ Hcan Hok) as [Hb ->]. simpl in *.
    destruct Hmon as (? & _ & _); [by rewrite lookup_insert_eq|].
    split; [done|]. by rewrite Hords.
  - specialize (IH w1 i Hc1 Hi). rewrite Hrun in IH. by apply IH.
Qed.

End Histories.

(** C4. Start from any base records and no override, and make any calls
    of [get_order] and [cancel_order].  In the state they leave: an
    override is there only for an identifier on which one of the calls of
    [cancel_order] returned [ok=True], and its value is [canceled]; no
    further calls remove or change it; and for an identifier on which a
    call of [cancel_order] has returned [ok=True], [get_order] reports the
    status canceled and [cancel_order] returns [ok=False],
    [reason="immutable_status"] with an order whose status is canceled,
    writing nothing. *)
Theorem overrides_invariant (orders : gmap string Order)
    (cs : gmap string Conversation) (h : gmap loc (list Message))
    (ops : list op) :
  let outs := (run ops (mkWorld orders ∅ cs h)).1 in
  let w := (run ops (mkWorld orders ∅ cs h)).2 in
  (∀ k s, OVERRIDES w !! k = Some s → s = "canceled" ∧ canceled_in ops outs k)
  ∧ (∀ ops' k s, OVERRIDES w !! k = Some s →
       OVERRIDES (run ops' w).2 !! k = Some s)
  ∧ (∀ k, canceled_in ops outs k →
       ∃ o, status o = canceled
         ∧ get_order k w = (Ok (Some o), w)
         ∧ cancel_order k w =
             (Ok (CancelOrderResult.mk false (Some "immutable_status") (Some o)), w)).
Proof.
  intros outs w. subst outs w.
  set (w0 := mkWorld orders ∅ cs h).
  assert (OVERRIDES w0 = ∅) as Hemp by done.
  pose proof (run_overrides_canceled ops w0 Hemp) as Hc.
  split; [|split].
  - by apply run_overrides_origin.
  - intros ops' k s Hs. by apply run_monotone.
  - intros k Hin.
    destruct (run_canceled_in ops w0 k) as [Hov [b Hb]]; [|done|].
    { unfold overrides_canceled. rewrite Hemp. apply map_Forall_empty. }
    destruct (canceled_override k _ b Hb Hov) as [Hg Hcan].
    by exists (mkOrder k canceled (item b)).
Qed.

Lemma overrides_invariant_witness :
  canceled_in [OpGet "23456"; OpCancel "23456"; OpCancel "23456"]
    (run [OpGet "23456"; OpCancel "23456"; OpCancel "23456"]
       (mkWorld (ORDERS Sample.world) ∅ ∅ ∅)).1 "23456"
  ∧ ∃ o, status o = canceled
      ∧ (get_order "23456"
           (run [OpGet "23456"; OpCancel "23456"; OpCancel "23456"]
              (mkWorld (ORDERS Sample.world) ∅ ∅ ∅)).2).1
        = Ok (Some o).
Proof.
  assert (canceled_in [OpGet "23456"; OpCancel "23456"; OpCancel "23456"]
    (run [OpGet "23456"; OpCancel "23456"; OpCancel "23456"]
       (mkWorld (ORDERS Sample.world) ∅ ∅ ∅)).1 "23456") as Hin.
  { exists 1%nat, (CancelOrderResult.mk true None
                     (Some (mkOrder "23456" canceled "case"))).
    vm_compute. repeat split; reflexivity. }
  split; [exact Hin|].
  destruct (overrides_invariant (ORDERS Sample.world) ∅ ∅
              [OpGet "23456"; OpCancel "23456"; OpCancel "23456"])
    as (_ & _ & Hafter).
  destruct (Hafter "23456" Hin) as (o & Hs & Hg & _).
  exists o. split; [exact Hs|]. by rewrite Hg.
Defined.

(** ** Text: substrings and the digit token *)

Section TextFacts.

Implicit Types (c : ascii) (s d pre post sub : string) (prev : option ascii).

Lemma app_nil_l s : "" +:+ s = s.
Proof. reflexivity. Qed.

Lemma app_cons c s1 s2 : String c s1 +:+ s2 = String c (s1 +:+ s2).
Proof. reflexivity. Qed.

Lemma is_digit_word c : is_digit c = true → is_word c = true.
Proof. unfold is_digit, is_word. by intros ->. Qed.

Lemma prefix_spec sub s :
  String.prefix sub s = true ↔ ∃ post, s = sub +:+ post.
Proof.
  revert s. induction sub as [|a sub IH]; intros s.
  - destruct s; simpl; split; eauto.
  - destruct s as [|b s]; simpl.
    + split; [done|]. by intros [post H].
    + destruct (ascii_dec a b) as [->|Hne].
      * rewrite IH. split; intros [post H]; exists post.
        -- by rewrite app_cons, H.
        -- rewrite app_cons in H. by simplify_eq.
      * split; [done|]. intros [post H]. rewrite app_cons in H. by simplify_eq.
Qed.

Lemma contains_unfold sub s :
  contains sub s =
    if String.prefix sub s then true
    else match s with
         | EmptyString => false
         | String _ s' => contains sub s'
         end.
Proof. by destruct s. Qed.

(** [sub in s] holds exactly when [sub] occurs in [s]. *)
Lemma contains_spec sub s :
  contains sub s = true ↔ ∃ pre post, s = pre +:+ sub +:+ post.
Proof.
  induction s as [|c s IH]; rewrite contains_unfold.
  - destruct (String.prefix sub "") eqn:Hp.
    + apply prefix_spec in Hp as [post Hp]. split; [|done].
      intros _. by exists "", post.
    + split; [done|]. intros ([|? pre] & post & H); [|done].
      rewrite app_nil_l in H.
      assert (String.prefix sub "" = true) by (apply prefix_spec; eauto).
      congruence.
  - destruct (String.prefix sub (String c s)) eqn:Hp.
    + apply prefix_spec in Hp as [post Hp]. split; [|done].
      intros _. by exists "", post.
    + rewrite IH. split.
      * intros (pre & post & ->). by exists (String c pre), post.
      * intros ([|c' pre] & post & H).
        -- rewrite app_nil_l in H.
           assert (String.prefix sub (String c s) = true)
             by (apply prefix_spec; eauto).
           congruence.
        -- rewrite app_cons in H. simplify_eq. eauto.
Qed.

Lemma match_more_spec c s d :
  is_word c = true →
  match_more c s = Some d ↔
    ∃ post, s = d +:+ post ∧ all_digits d = true ∧ word_at (head post) = false.
Proof.
  revert c d. induction s as [|a s IH]; intros c d Hc.
  - simpl. unfold boundary. simpl. rewrite Hc. simpl. split.
    + intros [= <-]. by exists "".
    + intros (post & H & _). destruct d; [done|]. by rewrite app_cons in H.
  - simpl. unfold boundary. simpl. rewrite Hc. simpl.
    destruct (is_digit a) eqn:Ha.
    + pose proof (is_digit_word a Ha) as Hwa. rewrite Hwa. simpl.
      specialize (IH a). destruct (match_more a s) as [d'|] eqn:Hm.
      * split.
        -- intros [= <-]. destruct (proj1 (IH d' Hwa) eq_refl) as (post & -> & ? & ?).
           exists post. simpl. by rewrite Ha.
        -- intros (post & H & Hd & Hp). destruct d as [|a' d].
           ++ rewrite app_nil_l in H. subst post. simpl in Hp. congruence.
           ++ rewrite app_cons in H. simplify_eq. simpl in Hd.
              apply andb_true_iff in Hd as [_ Hd].
              assert (Some d' = Some d) as [= ->]; [|done].
              apply IH; eauto.
      * split; [done|].
        intros (post & H & Hd & Hp). destruct d as [|a' d].
        -- rewrite app_nil_l in H. subst post. simpl in Hp. congruence.
        -- rewrite app_cons in H. simplify_eq. simpl in Hd.
           apply andb_true_iff in Hd as [_ Hd].
           assert (None = Some d) as [=]. apply IH; eauto.
    + destruct (is_word a) eqn:Hwa; simpl.
      * split; [done|].
        intros (post & H & Hd & Hp). destruct d as [|a' d].
        -- rewrite app_nil_l in H. subst post. simpl in Hp. congruence.
        -- rewrite app_cons in H. simplify_eq. simpl in Hd. by rewrite Ha in Hd.
      * split.
        -- intros [= <-]. exists (String a s). by rewrite app_nil_l.
        -- intros (post & H & Hd & Hp). destruct d as [|a' d]; [done|].
           rewrite app_cons in H. simplify_eq. simpl in Hd. by rewrite Ha in Hd.
Qed.

(** An attempt succeeds exactly on a token that starts where it starts. *)
Lemma match_here_spec prev s d :
  match_here prev s = Some d ↔ ∃ post, token prev s "" d post.
Proof.
  unfold match_here, token, boundary. destruct s as [|a s]; simpl.
  - split.
    + by destruct (xorb (word_at prev) false).
    + intros (post & H & Hne & _). rewrite app_nil_l in H. by destruct d.
  - destruct (is_digit a) eqn:Ha.
    + pose proof (is_digit_word a Ha) as Hwa. rewrite Hwa.
      destruct (word_at prev); simpl.
      * split; [done|]. by intros (post & _ & _ & _ & ? & _).
      * pose proof (match_more_spec a s) as Hm.
        destruct (match_more a s) as [d'|]; simpl.
        -- split.
           ++ intros [= <-]. destruct (proj1 (Hm d' Hwa) eq_refl) as (post & -> & ? & ?).
              exists post. rewrite app_nil_l, app_cons. simpl. rewrite Ha.
              repeat split; done.
           ++ intros (post & H & Hne & Hd & _ & Hp). rewrite app_nil_l in H.
              destruct d as [|a' d]; [done|]. rewrite app_cons in H. simplify_eq.
              simpl in Hd. apply andb_true_iff in Hd as [_ Hd].
              assert (Some d' = Some d) as [= ->]; [|done]. apply Hm; eauto.
        -- split; [done|].
           intros (post & H & Hne & Hd & _ & Hp). rewrite app_nil_l in H.
           destruct d as [|a' d]; [done|]. rewrite app_cons in H. simplify_eq.
           simpl in Hd. apply andb_true_iff in Hd as [_ Hd].
           assert (None = Some d) as [=]. apply Hm; eauto.
    + assert ((if xorb (word_at prev) (is_word a) then @None string else None) = None)
        as -> by (by destruct (xorb _ _)).
      split; [done|].
      intros (post & H & Hne & Hd & _). rewrite app_nil_l in H.
      destruct d as [|a' d]; [done|]. rewrite app_cons in H. simplify_eq.
      simpl in Hd. by rewrite Ha in Hd.
Qed.

Lemma token_cons prev c s pre d post :
  token prev (String c s) (String c pre) d post ↔ token (Some c) s pre d post.
Proof.
  unfold token. rewrite app_cons. simpl. split.
  - intros (H & ?). by simplify_eq.
  - intros (-> & ?). done.
Qed.

Lemma token_nonempty prev pre d post : ¬ token prev "" pre d post.
Proof.
  intros (H & Hne & _). destruct pre; [|done].
  rewrite app_nil_l in H. by destruct d.
Qed.

(** The search returns the leftmost token. *)
Lemma search_from_spec prev s d :
  search_from prev s = Some d ↔
    ∃ pre post, token prev s pre d post
      ∧ ∀ pre' d' post', token prev s pre' d' post' →
          (String.length pre ≤ String.length pre')%nat.
Proof.
  revert prev. induction s as [|c s IH]; intros prev.
  - assert (search_from prev "" = None) as ->.
    { simpl. destruct (match_here prev "") eqn:Hm; [|done].
      apply match_here_spec in Hm as [post []%token_nonempty]. }
    split; [done|]. by intros (pre & post & []%token_nonempty & _).
  - assert (search_from prev (String c s) =
            match match_here prev (String c s) with
            | Some d => Some d
            | None => search_from (Some c) s
            end) as -> by done.
    destruct (match_here prev (String c s)) as [d0|] eqn:Hm.
    + pose proof Hm as [post0 Ht0]%match_here_spec. split.
      * intros [= <-]. exists "", post0. split; [done|]. intros; simpl; lia.
      * intros (pre & post & Ht & Hleft).
        specialize (Hleft _ _ _ Ht0). simpl in Hleft.
        destruct pre; [|simpl in Hleft; lia].
        assert (match_here prev (String c s) = Some d) as Hm'
          by (apply match_here_spec; eauto).
        congruence.
    + assert (∀ d' post', ¬ token prev (String c s) "" d' post') as Hnone.
      { intros d' post' Ht.
        assert (match_here prev (String c s) = Some d')
          by (apply match_here_spec; eauto).
        congruence. }
      rewrite IH. split.
      * intros (pre & post & Ht & Hleft). exists (String c pre), post. split.
        -- by apply token_cons.
        -- intros [|c' pre'] d' post' Ht'; [by destruct (Hnone d' post')|].
           pose proof Ht' as (Heq & _). rewrite app_cons in Heq. simplify_eq.
           apply token_cons in Ht'. specialize (Hleft _ _ _ Ht'). simpl. lia.
      * intros ([|c' pre] & post & Ht & Hleft); [by destruct (Hnone d post)|].
        pose proof Ht as (Heq & _). rewrite app_cons in Heq. simplify_eq.
        exists pre, post. split; [by apply (token_cons prev)|].
        intros pre' d' post' Ht'. apply (token_cons prev) in Ht'.
        specialize (Hleft _ _ _ Ht'). simpl in Hleft. lia.
Qed.

(** The search fails exactly when there is no token at all. *)
Lemma search_from_None prev s :
  search_from prev s = None ↔ ∀ pre d post, ¬ token prev s pre d post.
Proof.
  revert prev. induction s as [|c s IH]; intros prev.
  - split; [|intros _].
    + intros _ pre d post. apply token_nonempty.
    + simpl. destruct (match_here prev "") eqn:Hm; [|done].
      apply match_here_spec in Hm as [post []%token_nonempty].
  - assert (search_from prev (String c s) =
            match match_here prev (String c s) with
            | Some d => Some d
            | None => search_from (Some c) s
            end) as -> by done.
    destruct (match_here prev (String c s)) as [d0|] eqn:Hm.
    + pose proof Hm as [post0 Ht0]%match_here_spec. split; [done|].
      intros H. by destruct (H _ _ _ Ht0).
    + rewrite IH. split.
      * intros H [|c' pre] d post Ht.
        -- assert (match_here prev (String c s) = Some d)
             by (apply match_here_spec; eauto).
           congruence.
        -- pose proof Ht as (Heq & _). rewrite app_cons in Heq. simplify_eq.
           apply token_cons in Ht. by destruct (H _ _ _ Ht).
      * intros H pre d post Ht. apply (token_cons prev) in Ht.
        by destruct (H _ _ _ Ht).
Qed.

Lemma re_search_digits_spec s d :
  re_search_digits s = Some d ↔ leftmost_token s d.
Proof. apply search_from_spec. Qed.

Lemma re_search_digits_None s :
  re_search_digits s = None ↔ ∀ pre d post, ¬ token None s pre d post.
Proof. apply search_from_None. Qed.

(** What the search extracts is a non-empty run of digits. *)
Lemma re_search_digits_digits s d :
  re_search_digits s = Some d → d ≠ "" ∧ all_digits d = true.
Proof. intros (pre & post & (_ & ? & ? & _) & _)%re_search_digits_spec. done. Qed.

End TextFacts.

(** ** The tool layer *)

Section Tools.

Implicit Types (w : World) (d : gmap string json) (s : string).

Lemma get_order_raises s w e :
  (get_order s w).1 = Raise e → e = ValidationError.
Proof.
  unfold get_order, Order_new. munfold.
  destruct (ORDERS w !! s) as [b|]; [|done].
  destruct (OVERRIDES w !! s) as [ov|]; [|done].
  destruct (parse_status ov); [done|]. simpl. congruence.
Qed.

Lemma cancel_order_raises_only s w e :
  (cancel_order s w).1 = Raise e → e = ValidationError.
Proof.
  destruct (cancel_order_inv s w)
    as [[_ H] | [(o & _ & _ & H) | [(o & _ & _ & H) | (e' & Hg & H)]]];
    rewrite H; simpl; try done.
  intros [= <-]. apply (get_order_raises s w). by rewrite Hg.
Qed.

Lemma find_order_tool_valid d s w :
  d !! "order_id" = Some (JStr s) →
  find_order_tool (JDict d) w = (found_result <$> get_order s) w.
Proof.
  intros Hd. unfold find_order_tool, validate_order_id. munfold. rewrite Hd.
  simpl. by destruct (get_order s w) as [[[o|]|e] w'].
Qed.

Lemma cancel_order_tool_valid d s w :
  d !! "order_id" = Some (JStr s) →
  cancel_order_tool (JDict d) w = cancel_order s w.
Proof.
  intros Hd. unfold cancel_order_tool, validate_order_id. munfold. rewrite Hd.
  simpl. by destruct (cancel_order s w) as [[r|e] w'].
Qed.

Lemma find_order_tool_invalid d w :
  (¬ ∃ s, d !! "order_id" = Some (JStr s)) →
  find_order_tool (JDict d) w = (Raise (ValueError "Invalid input for find_order"), w).
Proof.
  intros Hd. unfold find_order_tool, validate_order_id. munfold.
  destruct (d !! "order_id") as [[]|]; try done. destruct Hd; eauto.
Qed.

Lemma cancel_order_tool_invalid d w :
  (¬ ∃ s, d !! "order_id" = Some (JStr s)) →
  cancel_order_tool (JDict d) w
  = (Raise (ValueError "Invalid input for cancel_order"), w).
Proof.
  intros Hd. unfold cancel_order_tool, validate_order_id. munfold.
  destruct (d !! "order_id") as [[]|]; try done. destruct Hd; eauto.
Qed.

End Tools.

(** C6, as the code has it.  Each tool fails with the input error (a
    [ValueError]) exactly when the payload has no field [order_id] holding
    a string; a string is accepted whatever its length, the empty one
    included.  With the field present, [cancel_order_tool] is
    [cancel_order] on it and [find_order_tool] wraps the answer of
    [get_order] on it in a [FindOrderResult]. *)
Theorem tool_input_validation (d : gmap string json) (w : World) :
  ((∃ msg, (find_order_tool (JDict d) w).1 = Raise (ValueError msg))
     ↔ ¬ ∃ s, d !! "order_id" = Some (JStr s))
  ∧ ((∃ msg, (cancel_order_tool (JDict d) w).1 = Raise (ValueError msg))
     ↔ ¬ ∃ s, d !! "order_id" = Some (JStr s))
  ∧ (∀ s, d !! "order_id" = Some (JStr s) →
       find_order_tool (JDict d) w = (found_result <$> get_order s) w
       ∧ cancel_order_tool (JDict d) w = cancel_order s w).
Proof.
  split; [|split].
  - split.
    + intros [msg H] [s Hs]. rewrite (find_order_tool_valid _ _ _ Hs) in H.
      unfold fmap, M_fmap in H.
      pose proof (get_order_raises s w) as Hr.
      destruct (get_order s w) as [[o|e] w']; simpl in *; [done|].
      specialize (Hr e eq_refl). congruence.
    + intros H. rewrite (find_order_tool_invalid _ _ H). eauto.
  - split.
    + intros [msg H] [s Hs]. rewrite (cancel_order_tool_valid _ _ _ Hs) in H.
      apply cancel_order_raises_only in H. done.
    + intros H. rewrite (cancel_order_tool_invalid _ _ H). eauto.
  - intros s Hs. split.
    + by apply find_order_tool_valid.
    + by apply cancel_order_tool_valid.
Qed.

(** C6, the claim as stated fails: a payload whose [order_id] is the
    empty string has no non-empty [order_id], and neither tool fails on
    it; both go to the store, which knows no such order. *)
Lemma tool_accepts_empty_order_id :
  let d : gmap string json := {[ "order_id" := JStr "" ]} in
  (¬ ∃ s, d !! "order_id" = Some (JStr s) ∧ s ≠ "")
  ∧ (find_order_tool (JDict d) Sample.world).1
    = Ok (FindOrderResult.mk false None)
  ∧ (cancel_order_tool (JDict d) Sample.world).1
    = Ok (CancelOrderResult.mk false (Some "not_found") None).
Proof.
  split; [|split].
  - intros (s & Hs & Hne). vm_compute in Hs. by simplify_eq.
  - vm_compute. reflexivity.
  - vm_compute. reflexivity.
Qed.

(** ** The fallback decision procedure *)

Section Fallback.

Implicit Types (w : World) (l : loc) (ms : list Message) (m : Message).

Lemma fallback_empty w l :
  heap w !! l = Some [] →
  _fallback_chat_turn l w = (Ok (says "Hello! What can I help you with?", None), w).
Proof.
  intros Hl. unfold _fallback_chat_turn, list_read. munfold. by rewrite Hl.
Qed.

(** The procedure on a history that ends in [m]. *)
Lemma fallback_last w l ms m :
  heap w !! l = Some ms → last ms = Some m →
  _fallback_chat_turn l w =
    if negb (bool_decide (role m = user))
    then (Ok (says "Awaiting your instructions.", None), w)
    else
      match re_search_digits (lower (content m)) with
      | None => (Ok (says "Please provide an order ID.", None), w)
      | Some order_id =>
          if contains "cancel" (lower (content m)) then
            match cancel_order order_id w with
            | (Ok result, w') =>
                match
                  (if CancelOrderResult.ok result
                   then Ok ("Order " +:+ order_id +:+ " has been canceled successfully.")
                   else if bool_decide (CancelOrderResult.reason result = Some "not_found")
                   then Ok ("I couldn't find an order with ID " +:+ order_id +:+ ".")
                   else match CancelOrderResult.order result with
                        | Some o =>
                            Ok ("Order " +:+ order_id +:+ " cannot be canceled because it is "
                                  +:+ status_str (status o) +:+ ".")
                        | None => Raise AttributeError
                        end)
                with
                | Ok msg => (Ok (says msg, Some (dump_cancel result)), w')
                | Raise e => (Raise e, w')
                end
            | (Raise e, w') => (Raise e, w')
            end
          else
            match get_order order_id w with
            | (Ok o, w') =>
                (Ok (says (match o with
                           | Some x => "Order " +:+ order_id +:+ " is currently "
                                         +:+ status_str (status x) +:+ "."
                           | None => "I couldn't find an order with ID "
                                       +:+ order_id +:+ "."
                           end),
                     Some (dump_find (found_result o))), w')
            | (Raise e, w') => (Raise e, w')
            end
      end.
Proof.
  intros Hl Hlast. unfold _fallback_chat_turn, list_read. munfold. rewrite Hl.
  destruct ms as [|m0 ms]; [done|]. rewrite Hlast.
  destruct (negb (bool_decide (role m = user))); [done|].
  destruct (re_search_digits (lower (content m))) as [id|]; [|done].
  destruct (contains "cancel" (lower (content m))).
  - rewrite (cancel_order_tool_valid _ id) by apply lookup_singleton_eq.
    destruct (cancel_order id w) as [[r|e] w']; [|done].
    destruct (CancelOrderResult.ok r); [done|].
    destruct (bool_decide (CancelOrderResult.reason r = Some "not_found")); [done|].
    by destruct (CancelOrderResult.order r).
  - rewrite (find_order_tool_valid _ id) by apply lookup_singleton_eq.
    unfold fmap, M_fmap.
    destruct (get_order id w) as [[[o|]|e] w']; done.
Qed.

End Fallback.

(** The tools and the fallback procedure reach the store through
    [get_order] and [cancel_order] only: whatever they do to the state, at
    most one call of [cancel_order] does. *)
Lemma find_order_tool_state args w : (find_order_tool args w).2 = w.
Proof.
  unfold find_order_tool, validate_order_id. munfold.
  destruct args as [| | | | | |d]; try done.
  destruct (d !! "order_id") as [[| | | |s| |]|]; try done. simpl.
  pose proof (get_order_frame s w) as Hf.
  by destruct (get_order s w) as [[[o|]|e] w'].
Qed.

Lemma cancel_order_tool_state args w :
  (cancel_order_tool args w).2 = w
  ∨ ∃ s, cancel_order_tool args w = cancel_order s w.
Proof.
  destruct args as [| | | | | |d]; try (by left).
  destruct (d !! "order_id") as [[| | | |s| |]|] eqn:Hd.
  5: { right. exists s. by apply cancel_order_tool_valid. }
  all: left; rewrite cancel_order_tool_invalid; [done|];
    intros [s Hs]; congruence.
Qed.

Lemma fallback_state w l :
  (_fallback_chat_turn l w).2 = w
  ∨ ∃ id, (_fallback_chat_turn l w).2 = (cancel_order id w).2.
Proof.
  destruct (heap w !! l) as [ms|] eqn:Hl.
  - destruct (last ms) as [m|] eqn:Hlast.
    + rewrite (fallback_last _ _ _ _ Hl Hlast).
      destruct (negb (bool_decide (role m = user))); [by left|].
      destruct (re_search_digits (lower (content m))) as [id|]; [|by left].
      destruct (contains "cancel" (lower (content m))).
      * right. exists id. destruct (cancel_order id w) as [[r|e] w']; [|done].
        destruct (CancelOrderResult.ok r); [done|].
        destruct (bool_decide _); [done|].
        by destruct (CancelOrderResult.order r).
      * left. pose proof (get_order_frame id w) as Hf.
        by destruct (get_order id w) as [[o|e] w'].
    + apply last_None in Hlast as ->. left. by rewrite fallback_empty.
  - left. unfold _fallback_chat_turn, list_read. munfold. by rewrite Hl.
Qed.

(** C2. The fallback decision procedure, on a history [ms] and a store
    [w].  An empty history is answered by the greeting, a history whose
    last message is not the user's by the awaiting-instructions reply, both
    without a tool result.  Otherwise the lower-cased content of the last
    message is searched: without a word-bounded run of digits the reply
    asks for an order id, without a tool result; with one, the leftmost is
    the order id.  If the content contains "cancel", [cancel_order] is
    called and the reply is one of the three cancel replies according to
    its result; otherwise the order is looked up and the reply is one of
    the two status replies.  On both paths the dumped tool result is
    returned with the reply, found or not, canceled or not. *)
Theorem fallback_decision (w : World) (l : loc) (ms : list Message) :
  store_wf w → heap w !! l = Some ms →
  (ms = [] →
     _fallback_chat_turn l w = (Ok (says "Hello! What can I help you with?", None), w))
  ∧ (∀ m, last ms = Some m → role m ≠ user →
       _fallback_chat_turn l w = (Ok (says "Awaiting your instructions.", None), w))
  ∧ (∀ m, last ms = Some m → role m = user →
       let text := lower (content m) in
       ((∀ pre d post, ¬ token None text pre d post) →
          _fallback_chat_turn l w = (Ok (says "Please provide an order ID.", None), w))
       ∧ (∀ id, leftmost_token text id →
            ((∃ pre post, text = pre +:+ "cancel" +:+ post) →
               ∃ r w' msg,
                 cancel_order id w = (Ok r, w')
                 ∧ _fallback_chat_turn l w = (Ok (says msg, Some (dump_cancel r)), w')
                 ∧ ((CancelOrderResult.ok r = true
                     ∧ msg = "Order " +:+ id +:+ " has been canceled successfully.")
                    ∨ (CancelOrderResult.ok r = false
                       ∧ CancelOrderResult.reason r = Some "not_found"
                       ∧ msg = "I couldn't find an order with ID " +:+ id +:+ ".")
                    ∨ (CancelOrderResult.ok r = false
                       ∧ CancelOrderResult.reason r = Some "immutable_status"
                       ∧ ∃ o, CancelOrderResult.order r = Some o
                           ∧ msg = "Order " +:+ id +:+ " cannot be canceled because it is "
                                     +:+ status_str (status o) +:+ ".")))
            ∧ ((¬ ∃ pre post, text = pre +:+ "cancel" +:+ post) →
               ∃ o msg,
                 get_order id w = (Ok o, w)
                 ∧ _fallback_chat_turn l w
                   = (Ok (says msg, Some (dump_find (found_result o))), w)
                 ∧ ((∃ x, o = Some x
                       ∧ msg = "Order " +:+ id +:+ " is currently "
                                 +:+ status_str (status x) +:+ ".")
                    ∨ (o = None
                       ∧ msg = "I couldn't find an order with ID " +:+ id +:+ "."))))).
Proof.
  intros [Hk Hv] Hl. split; [|split].
  - intros ->. by apply fallback_empty.
  - intros m Hlast Hrole. rewrite (fallback_last _ _ _ _ Hl Hlast).
    by rewrite bool_decide_false.
  - intros m Hlast Hrole text. rewrite (fallback_last _ _ _ _ Hl Hlast).
    rewrite bool_decide_true by done. simpl. fold text. split.
    + intros Hnone%re_search_digits_None. by rewrite Hnone.
    + intros id Hid%re_search_digits_spec. rewrite Hid. split.
      * intros Hc%contains_spec. rewrite Hc.
        destruct (cancel_order_inv id w)
          as [[_ H] | [(o & _ & _ & H) | [(o & _ & _ & H) | (e & Hg & _)]]].
        -- rewrite H. simpl. eexists _, _, _. split; [done|]. split; [done|].
           right; left. done.
        -- rewrite H. simpl. eexists _, _, _. split; [done|]. split; [done|].
           right; right. repeat split; try done. by exists o.
        -- rewrite H. simpl. eexists _, _, _. split; [done|]. split; [done|].
           left. done.
        -- destruct (get_order_returns id w Hv) as [r Hr]. congruence.
      * intros Hnc.
        destruct (contains "cancel" text) eqn:Hc.
        { apply contains_spec in Hc. done. }
        destruct (get_order_returns id w Hv) as [o Ho]. rewrite Ho.
        eexists o, _. split; [done|]. split; [done|].
        destruct o as [x|]; [left; by exists x | right; done].
Qed.

Lemma fallback_decision_witness :
  store_wf Sample.world ∧ heap Sample.world !! 1%positive = Some Sample.history
  ∧ ∃ r w',
      cancel_order "23456" Sample.world = (Ok r, w')
      ∧ (_fallback_chat_turn 1%positive Sample.world).1
        = Ok (says "Order 23456 has been canceled successfully.",
              Some (dump_cancel r)).
Proof.
  assert (store_wf Sample.world) as Hwf.
  { apply (bool_decide_unpack _). vm_compute. exact I. }
  assert (heap Sample.world !! 1%positive = Some Sample.history) as Hl.
  { vm_compute. reflexivity. }
  split; [exact Hwf|]. split; [exact Hl|].
  destruct (fallback_decision Sample.world 1%positive Sample.history Hwf Hl)
    as (_ & _ & Huser).
  destruct (Huser (mkMessage user "Please cancel order 23456" None) eq_refl eq_refl)
    as [_ Hid].
  destruct (Hid "23456") as [Hcancel _].
  { apply re_search_digits_spec. vm_compute. reflexivity. }
  destruct Hcancel as (r & w' & msg & Hc & Hf & Hmsg).
  { apply contains_spec. vm_compute. reflexivity. }
  exists r, w'. split; [exact Hc|]. rewrite Hf. simpl.
  destruct Hmsg as [[_ ->] | [(Hok & _) | (Hok & _)]]; [reflexivity | |].
  - vm_compute in Hc. injection Hc as <- _. discriminate Hok.
  - vm_compute in Hc. injection Hc as <- _. discriminate Hok.
Defined.

(** C7. On every history and every store the fallback procedure returns:
    it raises nothing.  The identifier it extracts is a non-empty run of
    digits, on which neither tool raises its input error; and a result of
    [cancel_order] with reason [immutable_status] carries an order, so the
    reply that reads its status finds one. *)
Theorem fallback_never_raises (w : World) (l : loc) (ms : list Message) :
  store_wf w → heap w !! l = Some ms →
  (∃ reply w', _fallback_chat_turn l w = (Ok reply, w'))
  ∧ (∀ text id, re_search_digits text = Some id →
       id ≠ "" ∧ all_digits id = true
       ∧ (∀ msg, (find_order_tool (JDict {[ "order_id" := JStr id ]}) w).1
                 ≠ Raise (ValueError msg))
       ∧ (∀ msg, (cancel_order_tool (JDict {[ "order_id" := JStr id ]}) w).1
                 ≠ Raise (ValueError msg)))
  ∧ (∀ oid r w', cancel_order oid w = (Ok r, w') →
       CancelOrderResult.reason r = Some "immutable_status" →
       is_Some (CancelOrderResult.order r)).
Proof.
  intros [Hk Hv] Hl. split; [|split].
  - destruct (last ms) as [m|] eqn:Hlast.
    + rewrite (fallback_last _ _ _ _ Hl Hlast).
      destruct (negb (bool_decide (role m = user))); [by eauto|].
      destruct (re_search_digits (lower (content m))) as [id|]; [|by eauto].
      destruct (contains "cancel" (lower (content m))).
      * destruct (cancel_order_inv id w)
          as [[_ H] | [(o & _ & _ & H) | [(o & _ & _ & H) | (e & Hg & _)]]];
          try (rewrite H; simpl; by eauto).
        destruct (get_order_returns id w Hv) as [r Hr]. congruence.
      * destruct (get_order_returns id w Hv) as [o ->]. by eauto.
    + apply last_None in Hlast as ->. rewrite (fallback_empty _ _ Hl). by eauto.
  - intros text id Hid. destruct (re_search_digits_digits _ _ Hid) as [Hne Hd].
    split; [done|]. split; [done|]. split.
    + intros msg H.
      rewrite (find_order_tool_valid _ id) in H by apply lookup_singleton_eq.
      unfold fmap, M_fmap in H. pose proof (get_order_raises id w) as Hr.
      destruct (get_order id w) as [[o|e] w']; simpl in *; [done|].
      specialize (Hr e eq_refl). congruence.
    + intros msg H.
      rewrite (cancel_order_tool_valid _ id) in H by apply lookup_singleton_eq.
      by apply cancel_order_raises_only in H.
  - intros oid r w' Hc Hr.
    destruct (cancel_order_inv oid w)
      as [[_ H] | [(o & _ & _ & H) | [(o & _ & _ & H) | (e & Hg & H)]]];
      rewrite H in Hc; simplify_eq/=. by eexists.
Qed.

Lemma fallback_never_raises_witness :
  store_wf Sample.world_canceled
  ∧ heap Sample.world_canceled !! 1%positive = Some Sample.history
  ∧ ∃ reply w', _fallback_chat_turn 1%positive Sample.world_canceled = (Ok reply, w').
Proof.
  assert (store_wf Sample.world_canceled) as Hwf.
  { apply (bool_decide_unpack _). vm_compute. exact I. }
  assert (heap Sample.world_canceled !! 1%positive = Some Sample.history) as Hl.
  { vm_compute. reflexivity. }
  split; [exact Hwf|]. split; [exact Hl|].
  exact (proj1 (fallback_never_raises Sample.world_canceled 1%positive
                  Sample.history Hwf Hl)).
Defined.

(** ** What a computation leaves alone *)

Create HintDb framed discriminated.

Section Frames.

Context {A B : Type}.
Implicit Types (w : World) (m : M A).

Lemma frame_refl w : frame w w.
Proof. by repeat split. Qed.

Lemma frame_trans w1 w2 w3 : frame w1 w2 → frame w2 w3 → frame w1 w3.
Proof.
  intros (? & ? & ? & ?) (? & ? & ? & ?). repeat split; try congruence. auto.
Qed.

Lemma framed_ret (a : A) : framed (mret a).
Proof. intros w. apply frame_refl. Qed.

Lemma framed_raise e : framed (@raise A e).
Proof. intros w. apply frame_refl. Qed.

Lemma framed_lift (r : result A) : framed (lift r).
Proof. intros w. apply frame_refl. Qed.

Lemma framed_gets (f : World → A) : framed (gets f).
Proof. intros w. apply frame_refl. Qed.

Lemma framed_first (xs : list A) : framed (first xs).
Proof. intros w. destruct xs; apply frame_refl. Qed.

Lemma framed_deref (x : option A) : framed (deref x).
Proof. intros w. destruct x; apply frame_refl. Qed.

Lemma framed_bind m (f : A → M B) :
  framed m → (∀ a, framed (f a)) → framed (m ≫= f).
Proof.
  intros Hm Hf w. unfold mbind, M_bind. specialize (Hm w).
  destruct (m w) as [[a|e] w1]; [|done].
  eapply frame_trans; [exact Hm|apply Hf].
Qed.

Lemma framed_fmap m (f : A → B) : framed m → framed (f <$> m).
Proof.
  intros Hm w. unfold fmap, M_fmap. specialize (Hm w).
  by destruct (m w) as [[a|e] w1].
Qed.

Lemma framed_try m catches (h : exn → M A) :
  framed m → (∀ e, framed (h e)) → framed (try_except m catches h).
Proof.
  intros Hm Hh w. unfold try_except. specialize (Hm w).
  destruct (m w) as [[a|e] w1]; [done|].
  destruct (catches e); [|done].
  eapply frame_trans; [exact Hm|apply Hh].
Qed.

End Frames.

#[global] Hint Resolve framed_ret framed_raise framed_lift framed_gets
  framed_first framed_deref framed_fmap : framed.

Section FramedCode.

Lemma framed_list_read l : framed (list_read l).
Proof. intros w. unfold list_read. destruct (heap w !! l); apply frame_refl. Qed.

Lemma framed_Order_new oid st it : framed (Order_new oid st it).
Proof. unfold Order_new. destruct (parse_status st); auto with framed. Qed.

Lemma framed_Message_new r c tn : framed (Message_new r c tn).
Proof. unfold Message_new. destruct c; auto with framed. Qed.

Lemma framed_get_order oid : framed (get_order oid).
Proof. intros w. rewrite get_order_frame. apply frame_refl. Qed.

Lemma framed_cancel_order oid : framed (cancel_order oid).
Proof.
  intros w. destruct (cancel_order_effect oid w) as [-> | ->];
    [apply frame_refl|].
  repeat split. intros Hv. unfold overrides_valid. simpl.
  apply map_Forall_insert_2; [by eexists|done].
Qed.

Lemma framed_validate args : framed (validate_order_id args).
Proof.
  unfold validate_order_id. destruct args; auto with framed.
  destruct (d !! "order_id") as [[]|]; auto with framed.
Qed.

Lemma framed_find_order_tool args : framed (find_order_tool args).
Proof.
  unfold find_order_tool. apply framed_bind.
  - apply framed_try; [apply framed_fmap, framed_validate|auto with framed].
  - intros im. apply framed_bind; [apply framed_get_order|].
    intros [o|]; auto with framed.
Qed.

Lemma framed_cancel_order_tool args : framed (cancel_order_tool args).
Proof.
  unfold cancel_order_tool. apply framed_bind.
  - apply framed_try; [apply framed_fmap, framed_validate|auto with framed].
  - intros im. apply framed_cancel_order.
Qed.

Lemma framed_fallback l : framed (_fallback_chat_turn l).
Proof.
  unfold _fallback_chat_turn. apply framed_bind; [apply framed_list_read|].
  intros [|m0 ms]; [auto with framed|].
  apply framed_bind; [destruct (last (m0 :: ms)); auto with framed|].
  intros m. destruct (negb (bool_decide (role m = user))); [auto with framed|].
  destruct (re_search_digits (lower (content m))) as [id|]; [|auto with framed].
  destruct (contains "cancel" (lower (content m))).
  - apply framed_bind; [apply framed_cancel_order_tool|]. intros r.
    apply framed_bind; [|auto with framed].
    destruct (CancelOrderResult.ok r); [auto with framed|].
    destruct (bool_decide _); [auto with framed|].
    apply framed_bind; auto with framed.
  - apply framed_bind; [apply framed_find_order_tool|]. intros r.
    apply framed_bind; [|auto with framed].
    destruct (FindOrderResult.found r); [|auto with framed].
    apply framed_bind; auto with framed.
Qed.

Lemma framed_chat_turn key openai json_loads model_json l :
  framed (chat_turn key openai json_loads model_json l).
Proof.
  unfold chat_turn.
  destruct (truthy key) as [api|]; [|apply framed_fallback].
  destruct openai as [client|]; [|apply framed_fallback].
  apply framed_bind; [apply framed_list_read|]. intros ms.
  apply framed_bind; [auto with framed|]. intros resp.
  apply framed_bind; [auto with framed|]. intros choice.
  destruct (String.eqb _ "function_call").
  - apply framed_bind; [auto with framed|]. intros fc.
    destruct (json_loads (OpenAI.arguments fc)) as [args|]; [|auto with framed].
    assert (∀ fn result,
      framed (
        followup_response ← lift (OpenAI.create client
          (OpenAI.mkRequest "gpt-3.5-turbo-0613"
             (([JDict (<["role" := JStr "system"]>
                      (<["content" := JStr _system_prompt]> ∅))]
               ++ (openai_message <$> ms)) ++
              [JDict (<["role" := JStr "tool"]>
                     (<["content" := JStr (model_json result)]>
                     (<["name" := dump_optional JStr (Some fn)]> ∅)))])
             None None 0));
        c ← first (OpenAI.choices followup_response);
        assistant ← Message_new assistant (OpenAI.content (OpenAI.message c)) None;
        mret (assistant, Some result))) as Hcont.
    { intros fn result.
      apply framed_bind; [auto with framed|]. intros r2.
      apply framed_bind; [auto with framed|]. intros c.
      apply framed_bind; [apply framed_Message_new|]. auto with framed. }
    destruct (String.eqb (OpenAI.name fc) "find_order").
    + apply framed_bind; [apply framed_find_order_tool|]. intros r. apply Hcont.
    + destruct (String.eqb (OpenAI.name fc) "cancel_order"); [|auto with framed].
      apply framed_bind; [apply framed_cancel_order_tool|]. intros r. apply Hcont.
  - apply framed_bind; [apply framed_Message_new|]. auto with framed.
Qed.

(** Every operation keeps the store well-formed. *)
Lemma framed_wf {A} (m : M A) w : framed m → store_wf w → store_wf (m w).2.
Proof.
  intros Hm [Hk Hv]. destruct (Hm w) as (_ & _ & Ho & Hv').
  split; [|auto]. unfold orders_keyed. by rewrite Ho.
Qed.

End FramedCode.

(** ** The turn entry point *)

Section Turn.

Variable OPENAI_API_KEY : option string.
Variable openai : option OpenAI.Client.
Variable json_loads : string → option json.
Variable model_json : json → string.
Variable json_dumps : json → string.

Lemma list_append_run l m w ms :
  heap w !! l = Some ms →
  list_append l m w =
    (Ok tt, mkWorld (ORDERS w) (OVERRIDES w) (CONVERSATIONS w)
                    (<[l := ms ++ [m]]> (heap w))).
Proof. intros Hl. unfold list_append, list_read. munfold. by rewrite Hl. Qed.

(** The caller, [post_message], is the one that appends: the user
    message before the turn, then the tool message if a tool ran, then the
    assistant message, after the messages that were there. *)
Lemma post_message_appends cid text w conv ms a tr w2 :
  CONVERSATIONS w !! cid = Some conv →
  heap w !! messages conv = Some ms →
  chat_turn OPENAI_API_KEY openai json_loads model_json (messages conv)
    (mkWorld (ORDERS w) (OVERRIDES w) (CONVERSATIONS w)
       (<[messages conv := ms ++ [mkMessage user text None]]> (heap w)))
  = (Ok (a, tr), w2) →
  ∃ w3,
    post_message OPENAI_API_KEY openai json_loads model_json json_dumps cid text w
    = (Ok (AssistantMessageResponse.mk (content a) tr), w3)
    ∧ heap w3 !! messages conv =
        Some (ms ++ [mkMessage user text None]
                 ++ match tr with
                    | Some t => [mkMessage tool (json_dumps t) (Some "tool")]
                    | None => []
                    end
                 ++ [a])
    ∧ ORDERS w3 = ORDERS w2 ∧ OVERRIDES w3 = OVERRIDES w2.
Proof.
  intros Hc Hl Hturn.
  pose proof (framed_chat_turn OPENAI_API_KEY openai json_loads model_json
                (messages conv) (mkWorld (ORDERS w) (OVERRIDES w) (CONVERSATIONS w)
       (<[messages conv := ms ++ [mkMessage user text None]]> (heap w))))
    as (Hheap & _). rewrite Hturn in Hheap. simpl in Hheap.
  assert (heap w2 !! messages conv = Some (ms ++ [mkMessage user text None])) as Hl2.
  { rewrite Hheap. apply lookup_insert_eq. }
  unfold post_message. unfold mbind at 1, M_bind, gets. rewrite Hc.
  unfold mbind at 1, M_bind. rewrite (list_append_run _ _ _ _ Hl).
  unfold mbind at 1, M_bind. rewrite Hturn.
  destruct tr as [t|].
  - unfold mbind at 1, M_bind. rewrite (list_append_run _ _ _ _ Hl2).
    unfold mbind at 1, M_bind.
    erewrite list_append_run by (simpl; apply lookup_insert_eq).
    eexists. split; [reflexivity|]. simpl. rewrite lookup_insert_eq.
    by rewrite <- !app_assoc.
  - unfold mbind at 1, M_bind, mret at 1, M_ret.
    unfold mbind at 1, M_bind. rewrite (list_append_run _ _ _ _ Hl2).
    eexists. split; [reflexivity|]. simpl. rewrite lookup_insert_eq.
    by rewrite <- !app_assoc.
Qed.

End Turn.

(** C8. A turn leaves every list object as it found it, the history it
    was given included: no message of it is changed, moved or removed and
    nothing is appended to it.  The same holds of the fallback procedure.
    The reply and the tool result only come back as the returned value. *)
Theorem chat_turn_keeps_history (OPENAI_API_KEY : option string)
    (openai : option OpenAI.Client) (json_loads : string → option json)
    (model_json : json → string) (l : loc) (w : World) :
  let w' := (chat_turn OPENAI_API_KEY openai json_loads model_json l w).2 in
  heap w' = heap w
  ∧ heap w' !! l = heap w !! l
  ∧ CONVERSATIONS w' = CONVERSATIONS w
  ∧ heap (_fallback_chat_turn l w).2 = heap w.
Proof.
  intros w'. subst w'.
  destruct (framed_chat_turn OPENAI_API_KEY openai json_loads model_json l w)
    as (Hh & Hc & _).
  destruct (framed_fallback l w) as (Hf & _).
  rewrite Hh. done.
Qed.

(** ** The engine-backed turn and tool input *)

(** Runs the turn up to the decoding of the arguments of a requested call. *)
Ltac engine_turn Hkey Hl Hresp Hch Hfin Hfc :=
  unfold chat_turn; rewrite Hkey;
  unfold list_read, lift, first, deref, raise, mbind, M_bind, mret, M_ret;
  rewrite Hl; unfold first_request in Hresp; rewrite Hresp; cbn beta iota;
  rewrite Hch; cbn beta iota; rewrite Hfin; cbn beta iota;
  change ("function_call" =? "function_call")%string with true; cbn beta iota;
  rewrite Hfc; cbn beta iota.

Section EngineTurn.

Variable api_key : string.
Variable client : OpenAI.Client.
Variable json_loads : string → option json.
Variable model_json : json → string.

Implicit Types (w : World) (l : loc) (ms : list Message).

(** Arguments that are not JSON: the turn ends with an apology and no
    tool result. *)
Lemma chat_turn_unparsable w l ms fc :
  truthy (Some api_key) = Some api_key →
  heap w !! l = Some ms → requests_call client ms fc →
  json_loads (OpenAI.arguments fc) = None →
  chat_turn (Some api_key) (Some client) json_loads model_json l w =
    (Ok (says "Sorry, I couldn't parse the tool arguments.", None), w).
Proof.
  intros Hkey Hl (resp & choice & rest & Hresp & Hch & Hfin & Hfc) Hj.
  engine_turn Hkey Hl Hresp Hch Hfin Hfc. by rewrite Hj.
Qed.

(** A tool that is neither of the two: the turn ends with a reply naming
    it and no tool result. *)
Lemma chat_turn_unknown_tool w l ms fc args :
  truthy (Some api_key) = Some api_key →
  heap w !! l = Some ms → requests_call client ms fc →
  json_loads (OpenAI.arguments fc) = Some args →
  OpenAI.name fc ≠ "find_order" → OpenAI.name fc ≠ "cancel_order" →
  chat_turn (Some api_key) (Some client) json_loads model_json l w =
    (Ok (says ("Unknown tool " +:+ OpenAI.name fc +:+ "."), None), w).
Proof.
  intros Hkey Hl (resp & choice & rest & Hresp & Hch & Hfin & Hfc) Hj Hn1 Hn2.
  engine_turn Hkey Hl Hresp Hch Hfin Hfc. rewrite Hj.
  apply String.eqb_neq in Hn1, Hn2. by rewrite Hn1, Hn2.
Qed.

(** Arguments that decode to something other than a dictionary: the
    unpacking raises [TypeError], which the tool does not convert. *)
Lemma chat_turn_not_a_mapping w l ms fc args :
  truthy (Some api_key) = Some api_key →
  heap w !! l = Some ms → requests_call client ms fc →
  OpenAI.name fc = "find_order" ∨ OpenAI.name fc = "cancel_order" →
  json_loads (OpenAI.arguments fc) = Some args →
  (∀ d, args ≠ JDict d) →
  chat_turn (Some api_key) (Some client) json_loads model_json l w =
    (Raise TypeError, w).
Proof.
  intros Hkey Hl (resp & choice & rest & Hresp & Hch & Hfin & Hfc) Hname Hj Hd.
  engine_turn Hkey Hl Hresp Hch Hfin Hfc. rewrite Hj.
  destruct Hname as [-> | ->]; simpl;
    unfold find_order_tool, cancel_order_tool, validate_order_id; munfold;
    destruct args; try done; by destruct (Hd d).
Qed.

End EngineTurn.

(** C5, what the code does.  The engine asks for one of the two tools
    with arguments that decode to a dictionary without a string under
    [order_id]: the tool raises its [ValueError], nothing in [chat_turn]
    catches it, and the turn ends with that exception and no message, the
    state being as it was.  (Arguments that do not decode, and unknown
    tools, are answered in place: [chat_turn_unparsable],
    [chat_turn_unknown_tool].) *)
Theorem chat_turn_invalid_tool_input (api_key : string) (client : OpenAI.Client)
    (json_loads : string → option json) (model_json : json → string)
    (w : World) (l : loc) (ms : list Message) (fc : OpenAI.FunctionCall)
    (d : gmap string json) :
  truthy (Some api_key) = Some api_key →
  heap w !! l = Some ms → requests_call client ms fc →
  OpenAI.name fc = "find_order" ∨ OpenAI.name fc = "cancel_order" →
  json_loads (OpenAI.arguments fc) = Some (JDict d) →
  (¬ ∃ s, d !! "order_id" = Some (JStr s)) →
  chat_turn (Some api_key) (Some client) json_loads model_json l w =
    (Raise (ValueError ("Invalid input for " +:+ OpenAI.name fc)), w).
Proof.
  intros Hkey Hl (resp & choice & rest & Hresp & Hch & Hfin & Hfc) Hname Hj Hd.
  engine_turn Hkey Hl Hresp Hch Hfin Hfc. rewrite Hj.
  destruct Hname as [-> | ->]; simpl.
  - by rewrite (find_order_tool_invalid _ _ Hd).
  - by rewrite (cancel_order_tool_invalid _ _ Hd).
Qed.

Lemma chat_turn_invalid_tool_input_witness :
  chat_turn (Some "sk-test") (Some SampleEngine.client) SampleEngine.json_loads
    SampleEngine.model_json 1%positive Sample.world
  = (Raise (ValueError "Invalid input for find_order"), Sample.world).
Proof.
  apply (chat_turn_invalid_tool_input "sk-test" SampleEngine.client
           SampleEngine.json_loads SampleEngine.model_json Sample.world
           1%positive Sample.history (OpenAI.mkFunctionCall "find_order" "{}") ∅).
  - reflexivity.
  - vm_compute. reflexivity.
  - eexists _, _, _. repeat split; reflexivity.
  - left. reflexivity.
  - reflexivity.
  - intros [s Hs]. by rewrite lookup_empty in Hs.
Defined.

(** * Further properties of the code *)

(** ** orders.py: the state machine of an order *)

Section OrderMachine.

Implicit Types (w : World) (k oid : string) (ops : list op).

(** An override written for another identifier is not seen. *)
Lemma get_order_override_other k oid v w :
  k ≠ oid →
  (get_order k (mkWorld (ORDERS w) (<[oid := v]> (OVERRIDES w))
                        (CONVERSATIONS w) (heap w))).1
  = (get_order k w).1.
Proof.
  intros Hne. unfold get_order. munfold. simpl.
  destruct (ORDERS w !! k) as [b|]; [|done]. simpl.
  rewrite lookup_insert_ne by done.
  destruct (OVERRIDES w !! k) as [s|]; [|done].
  unfold Order_new. munfold. by destruct (parse_status s).
Qed.

(** With the override [canceled] in place a call of [cancel_order] does
    not return [ok=True]. *)
Lemma cancel_order_canceled_fails oid w r w' :
  OVERRIDES w !! oid = Some "canceled" →
  cancel_order oid w = (Ok r, w') → CancelOrderResult.ok r = false.
Proof.
  intros Hov Hc. destruct (CancelOrderResult.ok r) eqn:Hok; [|done].
  destruct (cancel_order_ok _ _ _ _ Hc Hok) as [[b Hb] _].
  destruct (canceled_override oid w b Hb Hov) as [_ Hc'].
  rewrite Hc' in Hc. by simplify_eq/=.
Qed.

Lemma no_cancel_after_override ops w k :
  overrides_canceled w → OVERRIDES w !! k = Some "canceled" →
  ¬ canceled_in ops (run ops w).1 k.
Proof.
  revert w. induction ops as [|o ops IH]; intros w Hc Hov (i & r & Hi & Ho & Hok).
  - done.
  - simpl in Ho.
    pose proof (step_overrides_canceled o w Hc) as Hc1.
    pose proof (run_monotone [o] w k "canceled" Hc Hov) as (Hov1 & _). simpl in Hov1.
    destruct (step o w) as [out w1] eqn:Hstep. simpl in *.
    specialize (IH w1 Hc1 Hov1).
    destruct (run ops w1) as [outs w2] eqn:Hrun. simpl in *.
    destruct i as [|i]; simpl in *.
    + simplify_eq/=. destruct (cancel_order k w) as [r' w'] eqn:Hcan.
      simplify_eq/=. pose proof (cancel_order_canceled_fails _ _ _ _ Hov Hcan).
      congruence.
    + apply IH. by exists i, r.
Qed.

Lemma step_terminal_stable o w k x :
  get_order k w = (Ok (Some x), w) → status x ≠ processing →
  get_order k (step o w).2 = (Ok (Some x), (step o w).2).
Proof.
  intros Hg Hs. destruct o as [k'|k']; simpl.
  - rewrite (get_order_pair k' w). done.
  - destruct (cancel_order_inv k' w)
      as [[_ H] | [(o & _ & _ & H) | [(o & Hg' & Hp & H) | (e & _ & H)]]];
      rewrite H; simpl; try done.
    destruct (decide (k = k')) as [->|Hne].
    + rewrite Hg in Hg'. simplify_eq/=.
    + rewrite get_order_pair. rewrite get_order_override_other by done.
      by rewrite Hg.
Qed.

End OrderMachine.

(** X1. Cancelling one order does not change what [get_order] returns
    for any other identifier, whether the cancellation succeeds or not. *)
Theorem cancel_order_other_ids (w : World) (oid k : string) :
  k ≠ oid → (get_order k (cancel_order oid w).2).1 = (get_order k w).1.
Proof.
  intros Hne. destruct (cancel_order_effect oid w) as [-> | ->]; [done|].
  by apply get_order_override_other.
Qed.

Lemma cancel_order_other_ids_witness :
  (get_order "12345" (cancel_order "23456" Sample.world).2).1
  = Ok (Some (mkOrder "12345" shipped "phone")).
Proof.
  rewrite (cancel_order_other_ids Sample.world "23456" "12345").
  - vm_compute. reflexivity.
  - discriminate.
Defined.

(** X2. Among any calls of [get_order] and [cancel_order] made from a
    state without overrides, at most one call of [cancel_order] on a given
    identifier returns [ok=True]. *)
Theorem at_most_one_cancel_succeeds (orders : gmap string Order)
    (cs : gmap string Conversation) (h : gmap loc (list Message))
    (ops : list op) (k : string) (i j : nat) (ri rj : CancelOrderResult.t) :
  let outs := (run ops (mkWorld orders ∅ cs h)).1 in
  ops !! i = Some (OpCancel k) → outs !! i = Some (OutCancel (Ok ri)) →
  CancelOrderResult.ok ri = true →
  ops !! j = Some (OpCancel k) → outs !! j = Some (OutCancel (Ok rj)) →
  CancelOrderResult.ok rj = true →
  i = j.
Proof.
  intros outs. subst outs.
  assert (overrides_canceled (mkWorld orders ∅ cs h)) as Hc.
  { apply map_Forall_empty. }
  revert Hc. generalize (mkWorld orders ∅ cs h). clear orders cs h.
  revert i j. induction ops as [|o ops IH]; intros i j w Hc Hi Hoi Hki Hj Hoj Hkj;
    [done|].
  simpl in Hoi, Hoj.
  pose proof (step_overrides_canceled o w Hc) as Hc1.
  pose proof (no_cancel_after_override ops (step o w).2 k Hc1) as Hno.
  destruct (step o w) as [out w1] eqn:Hstep. simpl in *.
  pose proof (λ i j, IH i j w1 Hc1) as IH'. clear IH.
  destruct (run ops w1) as [outs w2] eqn:Hrun. simpl in *.
  assert (∀ r, o = OpCancel k → out = OutCancel (Ok r) →
            CancelOrderResult.ok r = true →
            OVERRIDES w1 !! k = Some "canceled") as Hfirst.
  { intros r -> -> Hok. simpl in Hstep.
    destruct (cancel_order k w) as [r' w'] eqn:Hcan. simplify_eq/=.
    destruct (cancel_order_ok _ _ _ _ Hcan Hok) as [_ ->]. simpl.
    apply lookup_insert_eq. }
  destruct i as [|i], j as [|j]; simpl in *; simplify_eq/=.
  - done.
  - destruct Hno; [by eapply Hfirst|]. by exists j, rj.
  - destruct Hno; [by eapply Hfirst|]. by exists i, ri.
  - f_equal. by apply IH'.
Qed.

Lemma at_most_one_cancel_succeeds_witness :
  (run [OpGet "23456"; OpCancel "23456"]
     (mkWorld (ORDERS Sample.world) ∅ ∅ ∅)).1 !! 1%nat
  = Some (OutCancel (Ok (CancelOrderResult.mk true None
                           (Some (mkOrder "23456" canceled "case")))))
  ∧ 1%nat = 1%nat.
Proof.
  assert ((run [OpGet "23456"; OpCancel "23456"]
             (mkWorld (ORDERS Sample.world) ∅ ∅ ∅)).1 !! 1%nat
          = Some (OutCancel (Ok (CancelOrderResult.mk true None
                                   (Some (mkOrder "23456" canceled "case"))))))
    as Hout by (vm_compute; reflexivity).
  split; [exact Hout|].
  eapply (at_most_one_cancel_succeeds (ORDERS Sample.world) ∅ ∅
            [OpGet "23456"; OpCancel "23456"] "23456" 1 1).
  - reflexivity.
  - exact Hout.
  - reflexivity.
  - reflexivity.
  - exact Hout.
  - reflexivity.
Defined.

(** X3. No transition leaves [shipped] or [canceled]: once [get_order]
    reports an order whose status is not processing, it reports that same
    order after any further calls of [get_order] and [cancel_order]. *)
Theorem terminal_status_stable (w : World) (k : string) (x : Order)
    (ops : list op) :
  get_order k w = (Ok (Some x), w) → status x ≠ processing →
  get_order k (run ops w).2 = (Ok (Some x), (run ops w).2).
Proof.
  revert w. induction ops as [|o ops IH]; intros w Hg Hs; [done|].
  simpl. pose proof (step_terminal_stable o w k x Hg Hs) as Hg1.
  destruct (step o w) as [out w1]. simpl in *.
  specialize (IH w1 Hg1 Hs). by destruct (run ops w1).
Qed.

Lemma terminal_status_stable_witness :
  (get_order "12345"
     (run [OpCancel "12345"; OpCancel "23456"; OpGet "12345"] Sample.world).2).1
  = Ok (Some (mkOrder "12345" shipped "phone")).
Proof.
  rewrite (terminal_status_stable Sample.world "12345"
             (mkOrder "12345" shipped "phone")).
  - reflexivity.
  - vm_compute. reflexivity.
  - discriminate.
Defined.

(** ** orders.py: loading *)

Section Loading.

Implicit Types (w : World) (r : Row) (rows : list Row).

Lemma truthy_Some x s : truthy x = Some s → x = Some s ∧ s ≠ "".
Proof. destruct x as [[|c t]|]; simpl; intros; by simplify_eq. Qed.

Lemma row_fields_nonempty r oid st it :
  row_fields r = Some (oid, st, it) → oid ≠ "" ∧ st ≠ "" ∧ it ≠ "".
Proof.
  unfold row_fields.
  destruct (truthy (row_get "order_id" r)) as [a|] eqn:Ha; [|done].
  destruct (truthy (row_get "status" r)) as [b|] eqn:Hb; [|done].
  destruct (truthy (row_get "item" r)) as [c|] eqn:Hc; [|done].
  intros [= <- <- <-].
  apply truthy_Some in Ha as [_ ?], Hb as [_ ?], Hc as [_ ?]. done.
Qed.

(** What [load_row] does to the state, whatever the row. *)
Lemma load_row_cases r w :
  (load_row r w).2 = w
  ∨ ∃ oid st it s, row_fields r = Some (oid, st, it)
      ∧ parse_status st = Some s ∧ ORDERS w !! oid = None
      ∧ (load_row r w).2 = with_order oid (mkOrder oid s it) w.
Proof.
  destruct (row_fields r) as [[[oid st] it]|] eqn:Hf.
  - destruct (parse_status st) as [s|] eqn:Hs.
    + rewrite (load_row_complete _ _ _ _ _ _ Hf Hs).
      destruct (ORDERS w !! oid) eqn:Ho; [by left|].
      right. by exists oid, st, it, s.
    + left. by rewrite (load_row_invalid _ _ _ _ _ Hf Hs).
  - left. by rewrite (load_row_incomplete _ _ Hf).
Qed.

(** A property of the state that inserting a loaded record keeps is kept
    by the whole loop, however it ends. *)
Lemma for_each_load_row_inv (P : World → Prop) rows w :
  (∀ w r oid st it s, P w → row_fields r = Some (oid, st, it) →
     parse_status st = Some s → ORDERS w !! oid = None →
     P (with_order oid (mkOrder oid s it) w)) →
  P w → P (for_each rows load_row w).2.
Proof.
  intros Hstep. revert w. induction rows as [|r rows IH]; intros w HP; [done|].
  simpl. munfold.
  assert (P (load_row r w).2) as HP1.
  { destruct (load_row_cases r w) as [-> | (oid & st & it & s & ? & ? & ? & ->)];
      eauto. }
  destruct (load_row r w) as [[[]|e] w1]; simpl in *; auto.
Qed.

Lemma for_each_app {A} (xs ys : list A) (f : A → M unit) w :
  for_each (xs ++ ys) f w =
    match for_each xs f w with
    | (Ok _, w1) => for_each ys f w1
    | (Raise e, w1) => (Raise e, w1)
    end.
Proof.
  revert w. induction xs as [|x xs IH]; intros w; simpl; [done|].
  munfold. destruct (f x w) as [[[]|e] w1]; [apply IH|done].
Qed.

End Loading.

(** X4. [_load_orders] replaces the base records wholesale and touches
    nothing else: from any state, a missing file raises
    [FileNotFoundError] and leaves [ORDERS] empty; whatever the file, the
    overrides, the conversations and the list objects are as before; and
    with valid statuses the records afterwards are the first-seen ones of
    the file, none of the earlier records remaining. *)
Theorem load_orders_from_any_state (w : World) :
  _load_orders None w
  = (Raise FileNotFoundError,
     mkWorld ∅ (OVERRIDES w) (CONVERSATIONS w) (heap w))
  ∧ (∀ csv, OVERRIDES (_load_orders csv w).2 = OVERRIDES w
            ∧ CONVERSATIONS (_load_orders csv w).2 = CONVERSATIONS w
            ∧ heap (_load_orders csv w).2 = heap w)
  ∧ (∀ rows, statuses_valid rows →
       ∃ w', _load_orders (Some rows) w = (Ok tt, w')
         ∧ ∀ k o, ORDERS w' !! k = Some o ↔ first_seen rows k o).
Proof.
  split; [done|]. split.
  - intros [rows|]; [|done]. unfold _load_orders. munfold. simpl.
    apply (for_each_load_row_inv
             (λ w', OVERRIDES w' = OVERRIDES w
                    ∧ CONVERSATIONS w' = CONVERSATIONS w ∧ heap w' = heap w));
      [|done].
    by intros w0 r oid st it s (? & ? & ?) _ _ _.
  - intros rows Hv. unfold _load_orders. munfold. simpl.
    destruct (for_each_load_row rows
                (mkWorld ∅ (OVERRIDES w) (CONVERSATIONS w) (heap w)) Hv)
      as (w' & -> & _ & _ & _ & Hlook).
    exists w'. split; [done|]. intros k o. rewrite Hlook. simpl.
    rewrite lookup_empty. split; [by intros [?|[_ ?]] | by right].
Qed.

(** X5. A load that meets a complete row with an invalid status stops
    there with [ValidationError], and the rows before it stay loaded:
    nothing is rolled back and the rows after it are never read. *)
Theorem load_orders_stops_at_invalid_row (pre post : list Row) (bad : Row)
    (oid st it : string) (cs : gmap string Conversation)
    (h : gmap loc (list Message)) :
  statuses_valid pre →
  row_fields bad = Some (oid, st, it) → parse_status st = None →
  import_orders (Some (pre ++ bad :: post)) cs h
  = (Raise ValidationError, (import_orders (Some pre) cs h).2).
Proof.
  intros Hv Hf Hs. unfold import_orders, _load_orders. munfold. simpl.
  rewrite for_each_app.
  destruct (for_each_load_row pre (mkWorld ∅ ∅ cs h) Hv) as (w1 & -> & _).
  simpl. munfold. by rewrite (load_row_invalid _ _ _ _ _ Hf Hs).
Qed.

Lemma load_orders_stops_at_invalid_row_witness :
  ORDERS (import_orders
            (Some (Sample.csv ++ Sample.row "45678" "delivered" "cable"
                     :: [Sample.row "56789" "shipped" "lamp"])) ∅ ∅).2
  = ORDERS (import_orders (Some Sample.csv) ∅ ∅).2.
Proof.
  rewrite (load_orders_stops_at_invalid_row Sample.csv
             [Sample.row "56789" "shipped" "lamp"]
             (Sample.row "45678" "delivered" "cable")
             "45678" "delivered" "cable" ∅ ∅).
  - reflexivity.
  - intros r oid st it Hin Hf.
    repeat (apply elem_of_cons in Hin as [->|Hin]);
      [vm_compute in Hf; simplify_eq; vm_compute; eauto ..|].
    by apply elem_of_nil in Hin.
  - vm_compute. reflexivity.
  - vm_compute. reflexivity.
Defined.

(** X6. Whatever the file holds, and even when the load stops on an
    exception, every record in [ORDERS] after the import is filed under its
    own identifier, and neither its identifier nor its item is empty. *)
Theorem loaded_orders_fields (csv : option (list Row))
    (cs : gmap string Conversation) (h : gmap loc (list Message))
    (k : string) (o : Order) :
  ORDERS (import_orders csv cs h).2 !! k = Some o →
  order_id o = k ∧ k ≠ "" ∧ item o ≠ "".
Proof.
  unfold import_orders, _load_orders. munfold. simpl.
  destruct csv as [rows|]; [|simpl; by rewrite lookup_empty].
  revert k o.
  apply (for_each_load_row_inv
           (λ w, ∀ k o, ORDERS w !! k = Some o →
                        order_id o = k ∧ k ≠ "" ∧ item o ≠ "")).
  - intros w r oid st it s HP Hf Hs Hn k o. simpl.
    destruct (row_fields_nonempty _ _ _ _ Hf) as (? & _ & ?).
    destruct (decide (oid = k)) as [->|Hne].
    + rewrite lookup_insert_eq. by intros [= <-].
    + rewrite lookup_insert_ne by done. apply HP.
  - intros k o. simpl. by rewrite lookup_empty.
Qed.

Lemma loaded_orders_fields_witness :
  order_id (mkOrder "23456" processing "case") = "23456"
  ∧ "23456" ≠ "" ∧ item (mkOrder "23456" processing "case") ≠ "".
Proof.
  apply (loaded_orders_fields
           (Some (Sample.csv ++ [Sample.row "" "shipped" "cup"])) ∅ ∅).
  vm_compute. reflexivity.
Defined.

(** ** llm.py: the fallback procedure *)

Section FallbackFacts.

Implicit Types (w : World) (l : loc) (ms : list Message) (m : Message).

Lemma lower_app (a b : string) : lower (a +:+ b) = lower a +:+ lower b.
Proof.
  induction a as [|c a IH]; [done|].
  rewrite app_cons. simpl. by rewrite IH, app_cons.
Qed.

(** The turn on a user message with an order id and the word: the state
    and the result are those of [cancel_order]. *)
Lemma fallback_cancel_path w l ms m id :
  heap w !! l = Some ms → last ms = Some m → role m = user →
  re_search_digits (lower (content m)) = Some id →
  contains "cancel" (lower (content m)) = true →
  (_fallback_chat_turn l w).2 = (cancel_order id w).2
  ∧ ∀ r w', cancel_order id w = (Ok r, w') →
      ∃ msg, _fallback_chat_turn l w
             = (Ok (says msg, Some (dump_cancel r)), w').
Proof.
  intros Hl Hlast Hrole Hid Hc. rewrite (fallback_last _ _ _ _ Hl Hlast).
  rewrite bool_decide_true by done. simpl. rewrite Hid, Hc.
  destruct (cancel_order_inv id w)
    as [[_ H] | [(o & _ & _ & H) | [(o & _ & _ & H) | (e & _ & H)]]];
    rewrite H; simpl; (split; [done|]); intros r w' [= <- <-]; eauto.
Qed.

(** The turn on a user message with an order id and without the word. *)
Lemma fallback_lookup_path w l ms m id :
  heap w !! l = Some ms → last ms = Some m → role m = user →
  re_search_digits (lower (content m)) = Some id →
  contains "cancel" (lower (content m)) = false →
  ∀ x, get_order id w = (Ok (Some x), w) →
    _fallback_chat_turn l w
    = (Ok (says ("Order " +:+ id +:+ " is currently "
                   +:+ status_str (status x) +:+ "."),
           Some (dump_find (found_result (Some x)))), w).
Proof.
  intros Hl Hlast Hrole Hid Hc x Hg. rewrite (fallback_last _ _ _ _ Hl Hlast).
  rewrite bool_decide_true by done. simpl. by rewrite Hid, Hc, Hg.
Qed.

End FallbackFacts.

(** X7. The intent test is a plain substring test on the lower-cased
    content: a user message that contains the letters of "cancel" in any
    casing and at any place, inside a longer word included, and an order
    id, makes the turn call [cancel_order] on that id; the state after the
    turn is the state after that call. *)
Theorem fallback_cancel_any_case (w : World) (l : loc) (ms : list Message)
    (m : Message) (pre x post id : string) :
  heap w !! l = Some ms → last ms = Some m → role m = user →
  content m = pre +:+ x +:+ post → lower x = "cancel" →
  re_search_digits (lower (content m)) = Some id →
  (_fallback_chat_turn l w).2 = (cancel_order id w).2.
Proof.
  intros Hl Hlast Hrole Hcont Hx Hid.
  refine (proj1 (fallback_cancel_path w l ms m id Hl Hlast Hrole Hid _)).
  apply contains_spec. exists (lower pre), (lower post).
  by rewrite Hcont, !lower_app, Hx.
Qed.

Lemma fallback_cancel_any_case_witness :
  OVERRIDES
    (_fallback_chat_turn 1%positive
       (mkWorld (ORDERS Sample.world) ∅ ∅
          {[ 1%positive :=
               [mkMessage user "no CANCELLATION for 23456 please" None] ]})).2
  !! "23456" = Some "canceled".
Proof.
  rewrite (fallback_cancel_any_case _ 1%positive
             [mkMessage user "no CANCELLATION for 23456 please" None]
             (mkMessage user "no CANCELLATION for 23456 please" None)
             "no " "CANCEL" "LATION for 23456 please" "23456").
  - vm_compute. reflexivity.
  - vm_compute. reflexivity.
  - reflexivity.
  - reflexivity.
  - reflexivity.
  - vm_compute. reflexivity.
  - vm_compute. reflexivity.
Defined.

(** X8. The fallback procedure reads the last message only: two
    histories that end in the same message get the same reply, the same
    tool result and the same effect on the store, whatever came before. *)
Theorem fallback_last_message_only (w : World) (l l' : loc)
    (ms ms' : list Message) :
  heap w !! l = Some ms → heap w !! l' = Some ms' → last ms = last ms' →
  _fallback_chat_turn l w = _fallback_chat_turn l' w.
Proof.
  intros Hl Hl' Hlast. destruct (last ms) as [m|] eqn:Hm.
  - symmetry in Hlast.
    by rewrite (fallback_last _ _ _ _ Hl Hm), (fallback_last _ _ _ _ Hl' Hlast).
  - symmetry in Hlast. apply last_None in Hm as ->, Hlast as ->.
    by rewrite (fallback_empty _ _ Hl), (fallback_empty _ _ Hl').
Qed.

Lemma fallback_last_message_only_witness :
  _fallback_chat_turn 1%positive
    (mkWorld (ORDERS Sample.world) ∅ ∅
       {[ 1%positive := [mkMessage user "check 12345" None];
          2%positive := [mkMessage user "cancel 23456" None;
                         mkMessage assistant "done" None;
                         mkMessage user "check 12345" None] ]})
  = _fallback_chat_turn 2%positive
    (mkWorld (ORDERS Sample.world) ∅ ∅
       {[ 1%positive := [mkMessage user "check 12345" None];
          2%positive := [mkMessage user "cancel 23456" None;
                         mkMessage assistant "done" None;
                         mkMessage user "check 12345" None] ]}).
Proof.
  eapply fallback_last_message_only.
  - vm_compute. reflexivity.
  - vm_compute. reflexivity.
  - reflexivity.
Defined.

(** X9. A turn whose last message does not contain "cancel" once
    lower-cased changes nothing: neither the store nor any list object. *)
Theorem fallback_without_cancel_changes_nothing (w : World) (l : loc)
    (ms : list Message) (m : Message) :
  heap w !! l = Some ms → last ms = Some m →
  (¬ ∃ pre post, lower (content m) = pre +:+ "cancel" +:+ post) →
  (_fallback_chat_turn l w).2 = w.
Proof.
  intros Hl Hlast Hnc. rewrite (fallback_last _ _ _ _ Hl Hlast).
  destruct (negb (bool_decide (role m = user))); [done|].
  destruct (re_search_digits (lower (content m))) as [id|]; [|done].
  destruct (contains "cancel" (lower (content m))) eqn:Hc.
  { apply contains_spec in Hc. done. }
  pose proof (get_order_frame id w) as Hf.
  by destruct (get_order id w) as [[o|e] w'].
Qed.

Lemma fallback_without_cancel_changes_nothing_witness :
  (_fallback_chat_turn 1%positive
     (mkWorld (ORDERS Sample.world) ∅ ∅
        {[ 1%positive := [mkMessage user "check 23456" None] ]})).2
  = mkWorld (ORDERS Sample.world) ∅ ∅
      {[ 1%positive := [mkMessage user "check 23456" None] ]}.
Proof.
  eapply (fallback_without_cancel_changes_nothing _ 1%positive
            [mkMessage user "check 23456" None]
            (mkMessage user "check 23456" None)).
  - vm_compute. reflexivity.
  - reflexivity.
  - intros Hc%contains_spec. vm_compute in Hc. discriminate Hc.
Defined.

(** X10. After a cancellation has succeeded, by whatever route, the
    fallback answers a status question about that order with "canceled"
    and a found result, and answers a further cancel request with the
    refusal naming the status canceled; neither turn changes the state. *)
Theorem fallback_after_cancellation (w w' : World) (id : string)
    (r : CancelOrderResult.t) (l : loc) (ms : list Message) (m : Message) :
  cancel_order id w = (Ok r, w') → CancelOrderResult.ok r = true →
  heap w' !! l = Some ms → last ms = Some m → role m = user →
  re_search_digits (lower (content m)) = Some id →
  ∃ x, status x = canceled
    ∧ _fallback_chat_turn l w' =
        if contains "cancel" (lower (content m))
        then (Ok (says ("Order " +:+ id +:+ " cannot be canceled because it is canceled."),
                  Some (dump_cancel (CancelOrderResult.mk false
                                       (Some "immutable_status") (Some x)))), w')
        else (Ok (says ("Order " +:+ id +:+ " is currently canceled."),
                  Some (dump_find (FindOrderResult.mk true (Some x)))), w').
Proof.
  intros Hc Hok Hl Hlast Hrole Hid.
  destruct (cancel_order_ok _ _ _ _ Hc Hok) as [[b Hb] Hw'].
  assert (ORDERS w' !! id = Some b) as Hb' by (by subst w').
  assert (OVERRIDES w' !! id = Some "canceled") as Hov.
  { subst w'. simpl. apply lookup_insert_eq. }
  destruct (canceled_override id w' b Hb' Hov) as [Hg Hcan].
  exists (mkOrder id canceled (item b)). split; [done|].
  destruct (contains "cancel" (lower (content m))) eqn:Hcc.
  - destruct (fallback_cancel_path w' l ms m id Hl Hlast Hrole Hid Hcc)
      as [_ Hturn].
    destruct (Hturn _ _ Hcan) as [msg Hmsg].
    rewrite (fallback_last _ _ _ _ Hl Hlast) in Hmsg |- *.
    rewrite bool_decide_true by done. simpl. by rewrite Hid, Hcc, Hcan.
  - by rewrite (fallback_lookup_path w' l ms m id Hl Hlast Hrole Hid Hcc _ Hg).
Qed.

Lemma fallback_after_cancellation_witness :
  ∃ x, status x = canceled ∧
    (_fallback_chat_turn 1%positive
       (cancel_order "23456"
          (mkWorld (ORDERS Sample.world) ∅ ∅
             {[ 1%positive := [mkMessage user "status of 23456?" None] ]})).2).1
    = Ok (says "Order 23456 is currently canceled.",
          Some (dump_find (FindOrderResult.mk true (Some x)))).
Proof.
  destruct (fallback_after_cancellation
              (mkWorld (ORDERS Sample.world) ∅ ∅
                 {[ 1%positive := [mkMessage user "status of 23456?" None] ]})
              (cancel_order "23456"
                 (mkWorld (ORDERS Sample.world) ∅ ∅
                    {[ 1%positive := [mkMessage user "status of 23456?" None] ]})).2
              "23456"
              (CancelOrderResult.mk true None (Some (mkOrder "23456" canceled "case")))
              1%positive [mkMessage user "status of 23456?" None]
              (mkMessage user "status of 23456?" None))
    as (x & Hx & Heq).
  - vm_compute. reflexivity.
  - reflexivity.
  - vm_compute. reflexivity.
  - reflexivity.
  - reflexivity.
  - vm_compute. reflexivity.
  - exists x. split; [exact Hx|]. rewrite Heq. reflexivity.
Defined.

(** ** llm.py: the engine-backed turn *)

Section Postconditions.

Context {A B : Type}.

Lemma ensures_ret (P : A → Prop) (a : A) : P a → ensures P (mret a).
Proof. intros HP w a' w' [= <- _]. done. Qed.

Lemma ensures_raise (P : A → Prop) e : ensures P (raise e).
Proof. by intros w a w'. Qed.

Lemma ensures_bind (Q : B → Prop) (m : M A) (f : A → M B) :
  (∀ a, ensures Q (f a)) → ensures Q (m ≫= f).
Proof.
  intros Hf w b w'. unfold mbind, M_bind.
  destruct (m w) as [[a|e] w1]; [apply Hf|done].
Qed.

End Postconditions.

Section EngineFacts.

Variable api_key : string.
Variable client : OpenAI.Client.
Variable json_loads : string → option json.
Variable model_json : json → string.

Implicit Types (w : World) (l : loc) (ms : list Message).

Lemma ensures_Message_new (c : option string) (k : Message → M (Message * option json)) :
  (∀ text, ensures is_reply (k (mkMessage assistant text None))) →
  ensures is_reply (Message_new assistant c None ≫= k).
Proof.
  intros Hk. destruct c as [text|]; [|by intros w a w'].
  intros w a w'. apply Hk.
Qed.

Lemma ensures_fallback l : ensures is_reply (_fallback_chat_turn l).
Proof.
  unfold _fallback_chat_turn. apply ensures_bind. intros [|m0 ms].
  { by apply ensures_ret. }
  apply ensures_bind. intros m.
  destruct (negb (bool_decide (role m = user))); [by apply ensures_ret|].
  destruct (re_search_digits (lower (content m))) as [id|];
    [|by apply ensures_ret].
  destruct (contains "cancel" (lower (content m))).
  - apply ensures_bind. intros r. apply ensures_bind. intros msg.
    by apply ensures_ret.
  - apply ensures_bind. intros r. apply ensures_bind. intros msg.
    by apply ensures_ret.
Qed.

Lemma ensures_chat_turn key openai l :
  ensures is_reply (chat_turn key openai json_loads model_json l).
Proof.
  unfold chat_turn.
  destruct (truthy key) as [k|]; [|apply ensures_fallback].
  destruct openai as [c|]; [|apply ensures_fallback].
  apply ensures_bind. intros ms. apply ensures_bind. intros resp.
  apply ensures_bind. intros choice.
  destruct (String.eqb _ "function_call").
  - apply ensures_bind. intros fc.
    destruct (json_loads (OpenAI.arguments fc)) as [args|];
      [|by apply ensures_ret].
    destruct (String.eqb (OpenAI.name fc) "find_order").
    + apply ensures_bind. intros r. apply ensures_bind. intros r2.
      apply ensures_bind. intros c2. apply ensures_Message_new.
      intros text. by apply ensures_ret.
    + destruct (String.eqb (OpenAI.name fc) "cancel_order");
        [|by apply ensures_ret].
      apply ensures_bind. intros r. apply ensures_bind. intros r2.
      apply ensures_bind. intros c2. apply ensures_Message_new.
      intros text. by apply ensures_ret.
  - apply ensures_Message_new. intros text. by apply ensures_ret.
Qed.

(** The turn when the first choice of the engine asks for no tool. *)
Lemma chat_turn_first_choice w l ms choice :
  truthy (Some api_key) = Some api_key →
  heap w !! l = Some ms → first_choice client ms choice →
  OpenAI.finish_reason choice ≠ "function_call" →
  chat_turn (Some api_key) (Some client) json_loads model_json l w =
    match OpenAI.content (OpenAI.message choice) with
    | Some text => (Ok (says text, None), w)
    | None => (Raise ValidationError, w)
    end.
Proof.
  intros Hkey Hl (resp & rest & Hresp & Hch) Hfin.
  unfold chat_turn. rewrite Hkey.
  unfold list_read, lift, first, deref, raise, mbind, M_bind, mret, M_ret.
  rewrite Hl. unfold first_request in Hresp. rewrite Hresp. cbn beta iota.
  rewrite Hch. cbn beta iota.
  apply String.eqb_neq in Hfin. rewrite Hfin.
  unfold Message_new. by destruct (OpenAI.content (OpenAI.message choice)).
Qed.

End EngineFacts.

(** X11. Whatever path a turn takes (fallback, direct reply, tool
    call, parse failure, unknown tool), the message it returns has the role
    assistant and no tool name. *)
Theorem chat_turn_reply_is_assistant (OPENAI_API_KEY : option string)
    (openai : option OpenAI.Client) (json_loads : string → option json)
    (model_json : json → string) (l : loc) (w w' : World)
    (m : Message) (tr : option json) :
  chat_turn OPENAI_API_KEY openai json_loads model_json l w = (Ok (m, tr), w') →
  role m = assistant ∧ tool_name m = None.
Proof.
  intros H.
  exact (ensures_chat_turn json_loads model_json OPENAI_API_KEY openai l
           w (m, tr) w' H).
Qed.

Lemma chat_turn_reply_is_assistant_witness :
  role (says "Order 23456 has been canceled successfully.") = assistant
  ∧ tool_name (says "Order 23456 has been canceled successfully.") = None.
Proof.
  eapply (chat_turn_reply_is_assistant None None (λ _, None) (λ _, "")
            1%positive Sample.world).
  vm_compute. reflexivity.
Defined.

(** X12. When the engine answers without asking for a tool, the turn
    returns the engine's text as it is, with no tool result, and changes
    nothing; an answer without text makes the turn raise
    [ValidationError]. *)
Theorem chat_turn_direct_reply (api_key : string) (client : OpenAI.Client)
    (json_loads : string → option json) (model_json : json → string)
    (w : World) (l : loc) (ms : list Message) (choice : OpenAI.Choice) :
  truthy (Some api_key) = Some api_key →
  heap w !! l = Some ms → first_choice client ms choice →
  OpenAI.finish_reason choice ≠ "function_call" →
  (∀ text, OpenAI.content (OpenAI.message choice) = Some text →
     chat_turn (Some api_key) (Some client) json_loads model_json l w
     = (Ok (says text, None), w))
  ∧ (OpenAI.content (OpenAI.message choice) = None →
     chat_turn (Some api_key) (Some client) json_loads model_json l w
     = (Raise ValidationError, w)).
Proof.
  intros Hkey Hl Hfirst Hfin.
  rewrite (chat_turn_first_choice api_key client json_loads model_json
             w l ms choice Hkey Hl Hfirst Hfin).
  split; [intros text ->|intros ->]; done.
Qed.

Lemma chat_turn_direct_reply_witness :
  chat_turn (Some "sk-test") (Some SampleReplies.direct)
    SampleReplies.json_loads SampleReplies.model_json 1%positive Sample.world
  = (Ok (says "How can I help?", None), Sample.world).
Proof.
  refine (proj1 (chat_turn_direct_reply "sk-test" SampleReplies.direct
                   SampleReplies.json_loads SampleReplies.model_json
                   Sample.world 1%positive Sample.history
                   (OpenAI.mkChoice "stop"
                      (OpenAI.mkChatMessage (Some "How can I help?") None))
                   _ _ _ _) _ _).
  - reflexivity.
  - vm_compute. reflexivity.
  - eexists _, _. split; reflexivity.
  - discriminate.
  - reflexivity.
Defined.

(** X13. A failure of the engine on the first request ends the turn with
    the same exception, and a response without choices ends it with
    [IndexError]; in both cases nothing has changed. *)
Theorem chat_turn_engine_failure (api_key : string) (client : OpenAI.Client)
    (json_loads : string → option json) (model_json : json → string)
    (w : World) (l : loc) (ms : list Message) :
  truthy (Some api_key) = Some api_key →
  heap w !! l = Some ms →
  (∀ e, OpenAI.create client (first_request ms) = Raise e →
     chat_turn (Some api_key) (Some client) json_loads model_json l w
     = (Raise e, w))
  ∧ (∀ resp, OpenAI.create client (first_request ms) = Ok resp →
       OpenAI.choices resp = [] →
       chat_turn (Some api_key) (Some client) json_loads model_json l w
       = (Raise IndexError, w)).
Proof.
  intros Hkey Hl. split.
  - intros e He. unfold chat_turn. rewrite Hkey.
    unfold list_read, lift, first, deref, raise, mbind, M_bind, mret, M_ret.
    rewrite Hl. unfold first_request in He. by rewrite He.
  - intros resp Hresp Hch. unfold chat_turn. rewrite Hkey.
    unfold list_read, lift, first, deref, raise, mbind, M_bind, mret, M_ret.
    rewrite Hl. unfold first_request in Hresp. rewrite Hresp. cbn beta iota.
    by rewrite Hch.
Qed.

Lemma chat_turn_engine_failure_witness :
  chat_turn (Some "sk-test") (Some SampleReplies.failing)
    SampleReplies.json_loads SampleReplies.model_json 1%positive Sample.world
  = (Raise TypeError, Sample.world).
Proof.
  refine (proj1 (chat_turn_engine_failure "sk-test" SampleReplies.failing
                   SampleReplies.json_loads SampleReplies.model_json
                   Sample.world 1%positive Sample.history _ _) _ _).
  - reflexivity.
  - vm_compute. reflexivity.
  - reflexivity.
Defined.

(** X14. When the engine asks for [cancel_order] with valid arguments,
    the cancellation is made before the follow-up request: the state after
    the turn is the state after [cancel_order], whether the follow-up
    succeeds or not.  If the follow-up answers in text the turn returns that
    text with the dumped result of the tool; if the follow-up fails the turn
    raises, and the cancellation stays. *)
Theorem chat_turn_cancel_call (api_key : string) (client : OpenAI.Client)
    (json_loads : string → option json) (model_json : json → string)
    (w w' : World) (l : loc) (ms : list Message) (fc : OpenAI.FunctionCall)
    (d : gmap string json) (s : string) (r : CancelOrderResult.t) :
  truthy (Some api_key) = Some api_key →
  heap w !! l = Some ms → requests_call client ms fc →
  OpenAI.name fc = "cancel_order" →
  json_loads (OpenAI.arguments fc) = Some (JDict d) →
  d !! "order_id" = Some (JStr s) →
  cancel_order s w = (Ok r, w') →
  (chat_turn (Some api_key) (Some client) json_loads model_json l w).2 = w'
  ∧ (∀ resp c rest text,
       OpenAI.create client
         (followup_request ms "cancel_order" (model_json (dump_cancel r)))
       = Ok resp →
       OpenAI.choices resp = c :: rest →
       OpenAI.content (OpenAI.message c) = Some text →
       chat_turn (Some api_key) (Some client) json_loads model_json l w
       = (Ok (says text, Some (dump_cancel r)), w'))
  ∧ (∀ e,
       OpenAI.create client
         (followup_request ms "cancel_order" (model_json (dump_cancel r)))
       = Raise e →
       chat_turn (Some api_key) (Some client) json_loads model_json l w
       = (Raise e, w')).
Proof.
  intros Hkey Hl (resp1 & choice & rest1 & Hresp & Hch & Hfin & Hfc)
    Hname Hj Hd Hc.
  engine_turn Hkey Hl Hresp Hch Hfin Hfc. rewrite Hj, Hname.
  change ("cancel_order" =? "find_order")%string with false.
  change ("cancel_order" =? "cancel_order")%string with true.
  cbn beta iota. rewrite (cancel_order_tool_valid _ _ _ Hd), Hc.
  cbn beta iota. unfold dump_optional, tool_name, content.
  unfold followup_request, Message_new, mret, M_ret, raise.
  split; [|split].
  - match goal with
    | |- context [OpenAI.create client ?req] =>
        destruct (OpenAI.create client req) as [resp|e]
    end; [|done].
    destruct (OpenAI.choices resp) as [|c rest]; [done|]. cbn beta iota.
    by destruct (OpenAI.content (OpenAI.message c)).
  - intros resp c rest text -> -> ->. done.
  - intros e ->. done.
Qed.

Lemma chat_turn_cancel_call_witness :
  chat_turn (Some "sk-test") (Some SampleReplies.canceling)
    SampleReplies.json_loads SampleReplies.model_json 1%positive Sample.world
  = (Ok (says "Your order has been canceled.",
         Some (dump_cancel (CancelOrderResult.mk true None
                              (Some (mkOrder "23456" canceled "case"))))),
     Sample.world_canceled).
Proof.
  refine (proj1 (proj2 (chat_turn_cancel_call "sk-test" SampleReplies.canceling
                   SampleReplies.json_loads SampleReplies.model_json
                   Sample.world Sample.world_canceled 1%positive Sample.history
                   (OpenAI.mkFunctionCall "cancel_order" "23456")
                   {[ "order_id" := JStr "23456" ]} "23456"
                   (CancelOrderResult.mk true None
                      (Some (mkOrder "23456" canceled "case")))
                   _ _ _ _ _ _ _))
            (OpenAI.mkResponse
               [OpenAI.mkChoice "stop"
                  (OpenAI.mkChatMessage (Some "Your order has been canceled.") None)])
            _ [] _ _ _ _).
  - reflexivity.
  - vm_compute. reflexivity.
  - eexists _, _, _. repeat split; reflexivity.
  - reflexivity.
  - reflexivity.
  - apply lookup_singleton_eq.
  - vm_compute. reflexivity.
  - reflexivity.
  - reflexivity.
  - reflexivity.
Defined.

(** ** app.py: the routes *)

Section AppFacts.

Variable OPENAI_API_KEY : option string.
Variable openai : option OpenAI.Client.
Variable json_loads : string → option json.
Variable model_json : json → string.
Variable json_dumps : json → string.

Implicit Types (w : World) (cid text : string) (conv : Conversation)
  (ms : list Message).

Local Abbreviation post :=
  (post_message OPENAI_API_KEY openai json_loads model_json json_dumps).
Local Abbreviation turn :=
  (chat_turn OPENAI_API_KEY openai json_loads model_json).

Lemma post_message_unknown cid text w :
  CONVERSATIONS w !! cid = None →
  post cid text w = (Raise (HTTPException 404), w).
Proof. intros Hc. unfold post_message. munfold. by rewrite Hc. Qed.

Lemma get_messages_unknown cid w :
  CONVERSATIONS w !! cid = None →
  get_messages cid w = (Raise (HTTPException 404), w).
Proof. intros Hc. unfold get_messages. munfold. by rewrite Hc. Qed.

Lemma get_messages_run cid w conv ms :
  CONVERSATIONS w !! cid = Some conv → heap w !! messages conv = Some ms →
  get_messages cid w = (Ok (ConversationMessagesResponse.mk (visible ms)), w).
Proof.
  intros Hc Hl. unfold get_messages, list_read. munfold. by rewrite Hc, Hl.
Qed.

Lemma turn_heap w conv ms text r w2 :
  turn (messages conv) (with_user_message w conv ms text) = (r, w2) →
  heap w2 = <[messages conv := ms ++ [mkMessage user text None]]> (heap w)
  ∧ CONVERSATIONS w2 = CONVERSATIONS w.
Proof.
  intros Hturn.
  pose proof (framed_chat_turn OPENAI_API_KEY openai json_loads model_json
                (messages conv) (with_user_message w conv ms text))
    as (Hheap & Hconv & _).
  rewrite Hturn in Hheap, Hconv. done.
Qed.

(** A turn that raises: [post_message] raises the same, after the user
    message and nothing else has been appended. *)
Lemma post_message_raise cid text w conv ms e w2 :
  CONVERSATIONS w !! cid = Some conv → heap w !! messages conv = Some ms →
  turn (messages conv) (with_user_message w conv ms text) = (Raise e, w2) →
  post cid text w = (Raise e, w2).
Proof.
  intros Hc Hl Hturn.
  unfold post_message. unfold mbind at 1, M_bind, gets. rewrite Hc.
  unfold mbind at 1, M_bind. rewrite (list_append_run _ _ _ _ Hl).
  unfold mbind at 1, M_bind. fold (with_user_message w conv ms text).
  by rewrite Hturn.
Qed.

(** A turn that returns: [post_message] returns its reply and leaves, in
    the list of the conversation, the user message, the tool message if a
    tool ran, and the reply, after the messages that were there. *)
Lemma post_message_ok cid text w conv ms a tr w2 :
  CONVERSATIONS w !! cid = Some conv → heap w !! messages conv = Some ms →
  turn (messages conv) (with_user_message w conv ms text) = (Ok (a, tr), w2) →
  post cid text w =
    (Ok (AssistantMessageResponse.mk (content a) tr),
     mkWorld (ORDERS w2) (OVERRIDES w2) (CONVERSATIONS w2)
       (<[messages conv := ms ++ [mkMessage user text None]
                              ++ turn_messages json_dumps a tr]> (heap w2))).
Proof.
  intros Hc Hl Hturn.
  destruct (turn_heap _ _ _ _ _ _ Hturn) as [Hheap _].
  assert (heap w2 !! messages conv = Some (ms ++ [mkMessage user text None]))
    as Hl2 by (rewrite Hheap; apply lookup_insert_eq).
  unfold post_message. unfold mbind at 1, M_bind, gets. rewrite Hc.
  unfold mbind at 1, M_bind. rewrite (list_append_run _ _ _ _ Hl).
  unfold mbind at 1, M_bind. fold (with_user_message w conv ms text).
  rewrite Hturn. unfold turn_messages. destruct tr as [t|].
  - unfold mbind at 1, M_bind. rewrite (list_append_run _ _ _ _ Hl2).
    unfold mbind at 1, M_bind.
    erewrite list_append_run by (simpl; apply lookup_insert_eq).
    simpl. rewrite insert_insert_eq. by rewrite <- !app_assoc.
  - unfold mbind at 1, M_bind, mret at 1, M_ret.
    unfold mbind at 1, M_bind. rewrite (list_append_run _ _ _ _ Hl2).
    simpl. by rewrite <- !app_assoc.
Qed.

(** Outside the list of its conversation [post_message] changes no list
    object, and it changes no conversation. *)
Lemma post_message_frame cid text w conv :
  CONVERSATIONS w !! cid = Some conv →
  CONVERSATIONS (post cid text w).2 = CONVERSATIONS w
  ∧ (∀ l, l ≠ messages conv → heap (post cid text w).2 !! l = heap w !! l)
  ∧ (is_Some (heap w !! messages conv) →
     is_Some (heap (post cid text w).2 !! messages conv)).
Proof.
  intros Hc. destruct (heap w !! messages conv) as [ms|] eqn:Hl.
  - destruct (turn (messages conv) (with_user_message w conv ms text))
      as [[[a tr]|e] w2] eqn:Hturn;
      destruct (turn_heap _ _ _ _ _ _ Hturn) as [Hheap Hconv].
    + rewrite (post_message_ok _ _ _ _ _ _ _ _ Hc Hl Hturn). simpl.
      split; [done|]. split; [|by rewrite lookup_insert_eq].
      intros l Hne. rewrite lookup_insert_ne by done. rewrite Hheap.
      by rewrite lookup_insert_ne.
    + rewrite (post_message_raise _ _ _ _ _ _ _ Hc Hl Hturn). simpl.
      split; [done|]. rewrite Hheap. split; [|by rewrite lookup_insert_eq].
      intros l Hne. by rewrite lookup_insert_ne.
  - assert (post cid text w = (Raise TypeError, w)) as ->.
    { unfold post_message, list_append, list_read. munfold. by rewrite Hc, Hl. }
    split; [done|]. split; [done|]. by intros [? ?].
Qed.

End AppFacts.

Section AppTurns.

Variable OPENAI_API_KEY : option string.
Variable openai : option OpenAI.Client.
Variable json_loads : string → option json.
Variable model_json : json → string.
Variable json_dumps : json → string.

Implicit Types (w : World) (cid text : string) (conv : Conversation)
  (ms : list Message).

Local Abbreviation post :=
  (post_message OPENAI_API_KEY openai json_loads model_json json_dumps).
Local Abbreviation turn :=
  (chat_turn OPENAI_API_KEY openai json_loads model_json).

(** What a call of [post_message] that returns has done. *)
Lemma post_message_returns cid text w conv ms resp w3 :
  CONVERSATIONS w !! cid = Some conv → heap w !! messages conv = Some ms →
  post cid text w = (Ok resp, w3) →
  CONVERSATIONS w3 = CONVERSATIONS w
  ∧ heap w3 !! messages conv =
      Some (ms ++ [mkMessage user text None]
               ++ turn_messages json_dumps
                    (says (AssistantMessageResponse.assistant resp))
                    (AssistantMessageResponse.tool_result resp)).
Proof.
  intros Hc Hl Hpost.
  destruct (turn (messages conv) (with_user_message w conv ms text))
    as [[[a tr]|e] w2] eqn:Hturn.
  - destruct (turn_heap _ _ _ _ _ _ _ _ _ _ Hturn) as [_ Hconv].
    destruct (ensures_chat_turn json_loads model_json OPENAI_API_KEY openai
                (messages conv) _ _ _ Hturn) as [Hrole Hname].
    rewrite (post_message_ok _ _ _ _ _ _ _ _ _ _ _ _ _ Hc Hl Hturn) in Hpost.
    simplify_eq/=. split; [done|]. rewrite lookup_insert_eq.
    destruct a as [ro co tn]. simpl in *. by subst.
  - rewrite (post_message_raise _ _ _ _ _ _ _ _ _ _ _ _ Hc Hl Hturn) in Hpost.
    done.
Qed.

(** What a call of [post_message] that raises, on a known conversation,
    has done. *)
Lemma post_message_raises cid text w conv ms e w3 :
  CONVERSATIONS w !! cid = Some conv → heap w !! messages conv = Some ms →
  post cid text w = (Raise e, w3) →
  turn (messages conv) (with_user_message w conv ms text) = (Raise e, w3)
  ∧ heap w3 = <[messages conv := ms ++ [mkMessage user text None]]> (heap w).
Proof.
  intros Hc Hl Hpost.
  destruct (turn (messages conv) (with_user_message w conv ms text))
    as [[[a tr]|e'] w2] eqn:Hturn.
  - by rewrite (post_message_ok _ _ _ _ _ _ _ _ _ _ _ _ _ Hc Hl Hturn) in Hpost.
  - rewrite (post_message_raise _ _ _ _ _ _ _ _ _ _ _ _ Hc Hl Hturn) in Hpost.
    simplify_eq. split; [done|].
    by destruct (turn_heap _ _ _ _ _ _ _ _ _ _ Hturn).
Qed.

Lemma visible_after_turn ms text reply tr :
  visible (ms ++ [mkMessage user text None]
              ++ turn_messages json_dumps (says reply) tr)
  = visible ms ++ [mkMessage user text None; says reply].
Proof.
  unfold visible, turn_messages. rewrite !filter_app. by destruct tr.
Qed.

End AppTurns.

Section Conversations.

Implicit Types (w : World) (cid : string) (conv : Conversation).

Lemma convs_wf_alt w :
  convs_wf w ↔
    (∀ cid c, CONVERSATIONS w !! cid = Some c → is_Some (heap w !! messages c))
    ∧ (∀ cid c cid' c', CONVERSATIONS w !! cid = Some c →
         CONVERSATIONS w !! cid' = Some c' → messages c = messages c' →
         cid = cid').
Proof.
  unfold convs_wf. split.
  - intros H. split.
    + intros cid c Hc. by destruct (H cid c Hc).
    + intros cid c cid' c' Hc Hc' Heq. destruct (H cid c Hc) as [_ Hinj].
      by apply (Hinj cid' c' Hc').
  - intros [Ha Hi] cid c Hc. split; [by eapply Ha|].
    intros cid' c' Hc' Heq. by eapply Hi.
Qed.

Lemma create_conversation_run uuid4 w :
  create_conversation uuid4 w =
    (Ok (CreateConversationResponse.mk uuid4),
     mkWorld (ORDERS w) (OVERRIDES w)
       (<[uuid4 := mkConversation uuid4 (fresh (dom (heap w)))]> (CONVERSATIONS w))
       (<[fresh (dom (heap w)) := []]> (heap w))).
Proof. reflexivity. Qed.

Lemma fresh_not_allocated w l :
  is_Some (heap w !! l) → l ≠ fresh (dom (heap w)).
Proof.
  intros Hl%elem_of_dom ->. by apply (is_fresh (dom (heap w))).
Qed.

End Conversations.

(** X15. Both routes answer an unknown conversation id with the HTTP
    error 404 and change nothing. *)
Theorem unknown_conversation_404 (OPENAI_API_KEY : option string)
    (openai : option OpenAI.Client) (json_loads : string → option json)
    (model_json json_dumps : json → string) (w : World) (cid text : string) :
  CONVERSATIONS w !! cid = None →
  post_message OPENAI_API_KEY openai json_loads model_json json_dumps cid text w
  = (Raise (HTTPException 404), w)
  ∧ get_messages cid w = (Raise (HTTPException 404), w).
Proof.
  intros Hc. split.
  - by apply post_message_unknown.
  - by apply get_messages_unknown.
Qed.

Lemma unknown_conversation_404_witness :
  get_messages "c2" Sample.world = (Raise (HTTPException 404), Sample.world).
Proof.
  refine (proj2 (unknown_conversation_404 None None (λ _, None) (λ _, "")
                   (λ _, "") Sample.world "c2" "hello" _)).
  vm_compute. reflexivity.
Defined.

(** X16. After a call of [post_message] that returns, the history of
    the conversation is the earlier history followed by the user message,
    the tool message if a tool ran, and the reply that was returned; and
    [get_messages] then shows the earlier visible messages followed by the
    user message and the reply, never the tool message. *)
Theorem post_message_history (OPENAI_API_KEY : option string)
    (openai : option OpenAI.Client) (json_loads : string → option json)
    (model_json json_dumps : json → string) (w w3 : World) (cid text : string)
    (conv : Conversation) (ms : list Message)
    (resp : AssistantMessageResponse.t) :
  CONVERSATIONS w !! cid = Some conv → heap w !! messages conv = Some ms →
  post_message OPENAI_API_KEY openai json_loads model_json json_dumps cid text w
  = (Ok resp, w3) →
  heap w3 !! messages conv =
    Some (ms ++ [mkMessage user text None]
             ++ turn_messages json_dumps
                  (says (AssistantMessageResponse.assistant resp))
                  (AssistantMessageResponse.tool_result resp))
  ∧ get_messages cid w3 =
      (Ok (ConversationMessagesResponse.mk
             (visible ms ++ [mkMessage user text None;
                             says (AssistantMessageResponse.assistant resp)])),
       w3).
Proof.
  intros Hc Hl Hpost.
  destruct (post_message_returns _ _ _ _ _ _ _ _ _ _ _ _ Hc Hl Hpost)
    as [Hconv Hl3].
  split; [done|].
  rewrite (get_messages_run cid w3 conv _ ltac:(by rewrite Hconv) Hl3).
  by rewrite visible_after_turn.
Qed.

Lemma post_message_history_witness :
  ∃ w3,
    heap w3 !! 1%positive =
      Some (Sample.history
              ++ [mkMessage user "status of 12345?" None]
              ++ turn_messages (λ _, "{}") (says "Order 12345 is currently shipped.")
                   (Some (dump_find (FindOrderResult.mk true
                                       (Some (mkOrder "12345" shipped "phone")))))).
Proof.
  eexists.
  refine (proj1 (post_message_history None None (λ _, None) (λ _, "") (λ _, "{}")
                   Sample.world _ "c1" "status of 12345?"
                   (mkConversation "c1" 1%positive) Sample.history
                   (AssistantMessageResponse.mk "Order 12345 is currently shipped."
                      (Some (dump_find (FindOrderResult.mk true
                                          (Some (mkOrder "12345" shipped "phone"))))))
                   _ _ _)).
  - vm_compute. reflexivity.
  - vm_compute. reflexivity.
  - vm_compute. reflexivity.
Defined.

(** X17. When a call of [post_message] on a known conversation raises,
    the turn raised that exception, and the user message has already been
    appended: the history is the earlier one followed by the user message,
    with no reply after it, and no other list object has changed. *)
Theorem post_message_failed_turn (OPENAI_API_KEY : option string)
    (openai : option OpenAI.Client) (json_loads : string → option json)
    (model_json json_dumps : json → string) (w w3 : World) (cid text : string)
    (conv : Conversation) (ms : list Message) (e : exn) :
  CONVERSATIONS w !! cid = Some conv → heap w !! messages conv = Some ms →
  post_message OPENAI_API_KEY openai json_loads model_json json_dumps cid text w
  = (Raise e, w3) →
  chat_turn OPENAI_API_KEY openai json_loads model_json (messages conv)
    (with_user_message w conv ms text) = (Raise e, w3)
  ∧ heap w3 = <[messages conv := ms ++ [mkMessage user text None]]> (heap w).
Proof. apply post_message_raises. Qed.

Lemma post_message_failed_turn_witness :
  heap (post_message (Some "sk-test") (Some SampleEngine.client)
          SampleEngine.json_loads SampleEngine.model_json (λ _, "")
          "c1" "where is 12345?" Sample.world).2
  = <[1%positive := Sample.history ++ [mkMessage user "where is 12345?" None]]>
      (heap Sample.world).
Proof.
  refine (proj2 (post_message_failed_turn (Some "sk-test")
                   (Some SampleEngine.client) SampleEngine.json_loads
                   SampleEngine.model_json (λ _, "") Sample.world _
                   "c1" "where is 12345?" (mkConversation "c1" 1%positive)
                   Sample.history (ValueError "Invalid input for find_order")
                   _ _ _)).
  - vm_compute. reflexivity.
  - vm_compute. reflexivity.
  - vm_compute. reflexivity.
Defined.

(** X18. [create_conversation] returns the identifier it drew, files
    under it a conversation whose history is a new, empty list, so that
    [get_messages] on it shows no message, and leaves every existing list
    object, every other conversation and the order store as they were. *)
Theorem create_conversation_fresh (uuid4 : string) (w : World) :
  let w' := (create_conversation uuid4 w).2 in
  (create_conversation uuid4 w).1 = Ok (CreateConversationResponse.mk uuid4)
  ∧ get_messages uuid4 w' = (Ok (ConversationMessagesResponse.mk []), w')
  ∧ (∀ l ms, heap w !! l = Some ms → heap w' !! l = Some ms)
  ∧ (∀ cid, cid ≠ uuid4 → CONVERSATIONS w' !! cid = CONVERSATIONS w !! cid)
  ∧ ORDERS w' = ORDERS w ∧ OVERRIDES w' = OVERRIDES w.
Proof.
  intros w'. subst w'. rewrite create_conversation_run. simpl.
  split; [done|]. split; [|split; [|split; [|done]]].
  - rewrite (get_messages_run uuid4 _
               (mkConversation uuid4 (fresh (dom (heap w)))) []); [done| |].
    + simpl. apply lookup_insert_eq.
    + simpl. apply lookup_insert_eq.
  - intros l ms Hl. rewrite lookup_insert_ne; [done|].
    intros <-. by apply (fresh_not_allocated w (fresh (dom (heap w)))).
  - intros cid Hne. by rewrite lookup_insert_ne.
Qed.

Section AppInvariants.

Variable OPENAI_API_KEY : option string.
Variable openai : option OpenAI.Client.
Variable json_loads : string → option json.
Variable model_json : json → string.
Variable json_dumps : json → string.

Implicit Types (w : World) (cid text : string) (conv : Conversation).

Local Abbreviation post :=
  (post_message OPENAI_API_KEY openai json_loads model_json json_dumps).

Lemma create_conversation_wf uuid4 w :
  convs_wf w → convs_wf (create_conversation uuid4 w).2.
Proof.
  intros [Ha Hi]%convs_wf_alt. apply convs_wf_alt.
  rewrite create_conversation_run. simpl. split.
  - intros cid c. destruct (decide (uuid4 = cid)) as [->|Hne].
    + rewrite lookup_insert_eq. intros [= <-]. simpl.
      rewrite lookup_insert_eq. by eexists.
    + rewrite lookup_insert_ne by done. intros Hc.
      rewrite lookup_insert_ne; [by eapply Ha|].
      intros Heq. by apply (fresh_not_allocated w (messages c)); [eapply Ha|].
  - intros cid c cid' c'.
    destruct (decide (uuid4 = cid)) as [<-|Hne],
             (decide (uuid4 = cid')) as [<-|Hne'];
      rewrite ?lookup_insert_eq, ?lookup_insert_ne by done; try done.
    + intros [= <-] Hc' Heq. simpl in Heq.
      by destruct (fresh_not_allocated w (messages c')); [eapply Ha|].
    + intros Hc [= <-] Heq. simpl in Heq.
      by destruct (fresh_not_allocated w (messages c)); [eapply Ha|].
    + apply Hi.
Qed.

Lemma post_message_wf cid text w : convs_wf w → convs_wf (post cid text w).2.
Proof.
  intros [Ha Hi]%convs_wf_alt. apply convs_wf_alt.
  destruct (CONVERSATIONS w !! cid) as [conv|] eqn:Hc.
  - destruct (post_message_frame OPENAI_API_KEY openai json_loads model_json
                json_dumps cid text w conv Hc) as (-> & Hother & Hsame).
    split; [|done]. intros cid' c' Hc'.
    destruct (decide (messages c' = messages conv)) as [->|Hne].
    + apply Hsame. by eapply Ha.
    + rewrite Hother by done. by eapply Ha.
  - by rewrite post_message_unknown.
Qed.

Lemma post_message_other cid cid' text w c' :
  convs_wf w → CONVERSATIONS w !! cid' = Some c' → cid' ≠ cid →
  heap (post cid text w).2 !! messages c' = heap w !! messages c'.
Proof.
  intros [Ha Hi]%convs_wf_alt Hc' Hne.
  destruct (CONVERSATIONS w !! cid) as [conv|] eqn:Hc.
  - destruct (post_message_frame OPENAI_API_KEY openai json_loads model_json
                json_dumps cid text w conv Hc) as (_ & Hother & _).
    apply Hother. intros Heq. by destruct Hne; eapply Hi.
  - by rewrite post_message_unknown.
Qed.

End AppInvariants.

Section NoEngine.

Implicit Types (w : World) (l : loc) (ms : list Message).

Lemma fallback_returns w l ms :
  overrides_valid w → heap w !! l = Some ms →
  ∃ reply w', _fallback_chat_turn l w = (Ok reply, w').
Proof.
  intros Hv Hl. destruct (last ms) as [m|] eqn:Hlast.
  - rewrite (fallback_last _ _ _ _ Hl Hlast).
    destruct (negb (bool_decide (role m = user))); [by eauto|].
    destruct (re_search_digits (lower (content m))) as [id|]; [|by eauto].
    destruct (contains "cancel" (lower (content m))).
    + destruct (cancel_order_inv id w)
        as [[_ H] | [(o & _ & _ & H) | [(o & _ & _ & H) | (e & Hg & _)]]];
        try (rewrite H; simpl; by eauto).
      destruct (get_order_returns id w Hv) as [r Hr]. congruence.
    + destruct (get_order_returns id w Hv) as [o ->]. by eauto.
  - apply last_None in Hlast as ->. rewrite (fallback_empty _ _ Hl). by eauto.
Qed.

Lemma chat_turn_no_engine key openai json_loads model_json l :
  truthy key = None ∨ openai = None →
  chat_turn key openai json_loads model_json l = _fallback_chat_turn l.
Proof.
  unfold chat_turn. intros [-> | ->]; [done|]. by destruct (truthy key).
Qed.

End NoEngine.

(** X19. The conversations stay separate objects: if every conversation
    has its list and no two share one, this is still so after
    [create_conversation] and after [post_message], whatever they return. *)
Theorem conversations_stay_separate (OPENAI_API_KEY : option string)
    (openai : option OpenAI.Client) (json_loads : string → option json)
    (model_json json_dumps : json → string) (w : World)
    (uuid4 cid text : string) :
  convs_wf w →
  convs_wf (create_conversation uuid4 w).2
  ∧ convs_wf (post_message OPENAI_API_KEY openai json_loads model_json
                json_dumps cid text w).2.
Proof.
  intros Hwf. split.
  - by apply create_conversation_wf.
  - by apply post_message_wf.
Qed.

Lemma conversations_stay_separate_witness :
  convs_wf Sample.world
  ∧ convs_wf (create_conversation "c2" Sample.world).2.
Proof.
  assert (convs_wf Sample.world) as Hwf.
  { apply (bool_decide_unpack _). vm_compute. exact I. }
  split; [exact Hwf|].
  exact (proj1 (conversations_stay_separate None None (λ _, None) (λ _, "")
                  (λ _, "") Sample.world "c2" "c1" "hello" Hwf)).
Defined.

(** X20. A message posted to one conversation never changes the history
    of another one, whether the call returns or raises. *)
Theorem conversations_isolated (OPENAI_API_KEY : option string)
    (openai : option OpenAI.Client) (json_loads : string → option json)
    (model_json json_dumps : json → string) (w : World)
    (cid cid' text : string) (c' : Conversation) :
  convs_wf w → CONVERSATIONS w !! cid' = Some c' → cid' ≠ cid →
  heap (post_message OPENAI_API_KEY openai json_loads model_json json_dumps
          cid text w).2 !! messages c'
  = heap w !! messages c'.
Proof. apply post_message_other. Qed.

Lemma conversations_isolated_witness :
  heap (post_message None None (λ _, None) (λ _, "") (λ _, "")
          "c2" "cancel 23456" (create_conversation "c2" Sample.world).2).2
    !! 1%positive
  = Some Sample.history.
Proof.
  etransitivity.
  - apply (conversations_isolated None None (λ _, None) (λ _, "") (λ _, "")
             (create_conversation "c2" Sample.world).2 "c2" "c1" "cancel 23456"
             (mkConversation "c1" 1%positive)).
    + apply (bool_decide_unpack _). vm_compute. exact I.
    + vm_compute. reflexivity.
    + discriminate.
  - vm_compute. reflexivity.
Defined.

(** X21. Without an engine (no API key, an empty one, or no [openai]
    module) [post_message] on a known conversation always returns: in a
    well-formed store no message makes it raise. *)
Theorem post_message_without_engine_returns (OPENAI_API_KEY : option string)
    (openai : option OpenAI.Client) (json_loads : string → option json)
    (model_json json_dumps : json → string) (w : World) (cid text : string)
    (conv : Conversation) (ms : list Message) :
  truthy OPENAI_API_KEY = None ∨ openai = None →
  store_wf w →
  CONVERSATIONS w !! cid = Some conv → heap w !! messages conv = Some ms →
  ∃ resp w',
    post_message OPENAI_API_KEY openai json_loads model_json json_dumps cid text w
    = (Ok resp, w').
Proof.
  intros Hno [_ Hv] Hc Hl.
  destruct (fallback_returns (with_user_message w conv ms text) (messages conv)
              (ms ++ [mkMessage user text None]))
    as ([a tr] & w2 & Hturn); [done|apply lookup_insert_eq|].
  rewrite <- (chat_turn_no_engine OPENAI_API_KEY openai json_loads model_json
                _ Hno) in Hturn.
  rewrite (post_message_ok _ _ _ _ _ _ _ _ _ _ _ _ _ Hc Hl Hturn). eauto.
Qed.

Lemma post_message_without_engine_returns_witness :
  ∃ resp w',
    post_message (Some "") None (λ _, None) (λ _, "") (λ _, "")
      "c1" "CANCEL 12345 now" Sample.world
    = (Ok resp, w').
Proof.
  apply (post_message_without_engine_returns (Some "") None (λ _, None)
           (λ _, "") (λ _, "") Sample.world "c1" "CANCEL 12345 now"
           (mkConversation "c1" 1%positive) Sample.history).
  - left. reflexivity.
  - apply (bool_decide_unpack _). vm_compute. exact I.
  - vm_compute. reflexivity.
  - vm_compute. reflexivity.
Defined.

(** ** Results, invariants and the remaining edges *)

Section Shapes.

Implicit Types (w : World) (oid : string).

Lemma is_digit_lower c : is_digit (lower_char c) = is_digit c.
Proof. by destruct c as [[] [] [] [] [] [] [] []]. Qed.

Lemma all_digits_app_inv (d post : string) :
  d ≠ "" → all_digits d = true →
  ∃ c rest, d +:+ post = String c rest ∧ is_digit c = true.
Proof.
  destruct d as [|c d]; [done|]. simpl. intros _ [Hc _]%andb_true_iff.
  exists c, (d +:+ post). by rewrite app_cons.
Qed.

Lemma no_digit_lower s : no_digit (lower s) = no_digit s.
Proof. induction s as [|c s IH]; [done|]. simpl. by rewrite is_digit_lower, IH. Qed.

Lemma no_digit_app_inv (pre s : string) c rest :
  no_digit (pre +:+ String c rest) = true → is_digit c = false.
Proof.
  induction pre as [|a pre IH].
  - rewrite app_nil_l. simpl. intros [H _]%andb_true_iff.
    by destruct (is_digit c).
  - rewrite app_cons. simpl. intros [_ H]%andb_true_iff. by apply IH.
Qed.

Lemma no_digit_no_token prev s :
  no_digit s = true → ∀ pre d post, ¬ token prev s pre d post.
Proof.
  intros Hs pre d post (-> & Hne & Hd & _).
  destruct (all_digits_app_inv d post Hne Hd) as (c & rest & Heq & Hc).
  rewrite Heq in Hs. apply (no_digit_app_inv pre "") in Hs. congruence.
Qed.

Lemma post_message_store (OPENAI_API_KEY : option string)
    (openai : option OpenAI.Client) (json_loads : string → option json)
    (model_json json_dumps : json → string) w (cid text : string) :
  store_wf w →
  store_wf (post_message OPENAI_API_KEY openai json_loads model_json json_dumps
              cid text w).2.
Proof.
  intros Hwf.
  destruct (CONVERSATIONS w !! cid) as [conv|] eqn:Hc;
    [|by rewrite post_message_unknown].
  destruct (heap w !! messages conv) as [ms|] eqn:Hl.
  - assert (store_wf (with_user_message w conv ms text)) as Hwf1 by done.
    pose proof (framed_wf _ _
                  (framed_chat_turn OPENAI_API_KEY openai json_loads model_json
                     (messages conv)) Hwf1) as Hwf2.
    destruct (chat_turn OPENAI_API_KEY openai json_loads model_json
                (messages conv) (with_user_message w conv ms text))
      as [[[a tr]|e] w2] eqn:Hturn.
    + by rewrite (post_message_ok _ _ _ _ _ _ _ _ _ _ _ _ _ Hc Hl Hturn).
    + by rewrite (post_message_raise _ _ _ _ _ _ _ _ _ _ _ _ Hc Hl Hturn).
  - assert (post_message OPENAI_API_KEY openai json_loads model_json json_dumps
              cid text w = (Raise TypeError, w)) as ->; [|done].
    unfold post_message, list_append, list_read. munfold. by rewrite Hc, Hl.
Qed.

End Shapes.

(** X22. The store stays well-formed: after the import, whatever the file
    holds, the base records are filed under their own identifiers and the
    overrides are statuses; and [cancel_order], both tools, a turn,
    [post_message] and [create_conversation] keep it so, whether they return
    or raise. *)
Theorem store_wf_invariant (OPENAI_API_KEY : option string)
    (openai : option OpenAI.Client) (json_loads : string → option json)
    (model_json json_dumps : json → string) :
  (∀ csv cs h, store_wf (import_orders csv cs h).2)
  ∧ (∀ w, store_wf w →
       (∀ oid, store_wf (cancel_order oid w).2)
       ∧ (∀ args, store_wf (find_order_tool args w).2
                  ∧ store_wf (cancel_order_tool args w).2)
       ∧ (∀ l, store_wf (chat_turn OPENAI_API_KEY openai json_loads
                           model_json l w).2)
       ∧ (∀ cid text,
            store_wf (post_message OPENAI_API_KEY openai json_loads model_json
                        json_dumps cid text w).2)
       ∧ (∀ uuid4, store_wf (create_conversation uuid4 w).2)).
Proof.
  split; [apply import_orders_wf|]. intros w Hwf.
  split; [|split; [|split; [|split]]].
  - intros oid. apply framed_wf; [apply framed_cancel_order|done].
  - intros args. split; apply framed_wf;
      [apply framed_find_order_tool|done|apply framed_cancel_order_tool|done].
  - intros l. apply framed_wf; [apply framed_chat_turn|done].
  - intros cid text. by apply post_message_store.
  - intros uuid4. by rewrite create_conversation_run.
Qed.

Lemma store_wf_invariant_witness :
  store_wf Sample.world
  ∧ store_wf (post_message None None (λ _, None) (λ _, "") (λ _, "")
                "c1" "cancel 23456" Sample.world).2.
Proof.
  destruct (store_wf_invariant None None (λ _, None) (λ _, "") (λ _, ""))
    as [Himport Hkeep].
  assert (store_wf Sample.world) as Hwf by apply Himport.
  split; [exact Hwf|].
  destruct (Hkeep Sample.world Hwf) as (_ & _ & _ & Hpost & _). apply Hpost.
Defined.

(** X23. [find_order_tool] is read-only, whatever its arguments and
    whether it returns or raises; when it returns, [found] says exactly
    whether an order is attached. *)
Theorem find_order_tool_read_only (args : json) (w : World) :
  (find_order_tool args w).2 = w
  ∧ ∀ r, (find_order_tool args w).1 = Ok r →
      (FindOrderResult.found r = true ↔ is_Some (FindOrderResult.order r)).
Proof.
  split; [apply find_order_tool_state|].
  unfold find_order_tool, validate_order_id. munfold.
  destruct args as [| | | | | |d]; try done.
  destruct (d !! "order_id") as [[| | | |s| |]|]; try done. simpl.
  destruct (get_order s w) as [[[o|]|e] w']; simpl; intros r Hr; simplify_eq/=.
  - split; [by eexists|done].
  - split; [done|by intros [? ?]].
Qed.

(** X24. The result of [cancel_order] has one of three shapes: success
    without a reason and with an order that has the identifier asked for
    and the status canceled; failure [not_found] without an order, there
    being no base record; failure [immutable_status] with an order that is
    shipped or canceled. *)
Theorem cancel_order_result_shape (w w' : World) (oid : string)
    (r : CancelOrderResult.t) :
  cancel_order oid w = (Ok r, w') →
  (CancelOrderResult.ok r = true ∧ CancelOrderResult.reason r = None
   ∧ ∃ o, CancelOrderResult.order r = Some o ∧ status o = canceled
          ∧ order_id o = oid)
  ∨ (CancelOrderResult.ok r = false
     ∧ CancelOrderResult.reason r = Some "not_found"
     ∧ CancelOrderResult.order r = None ∧ ORDERS w !! oid = None)
  ∨ (CancelOrderResult.ok r = false
     ∧ CancelOrderResult.reason r = Some "immutable_status"
     ∧ ∃ o, CancelOrderResult.order r = Some o ∧ status o ≠ processing).
Proof.
  intros Hc.
  destruct (cancel_order_inv oid w)
    as [[Hg H] | [(o & _ & Hs & H) | [(o & _ & _ & H) | (e & _ & H)]]];
    rewrite H in Hc; [| | |done]; injection Hc as Hr _; subst r; simpl.
  - right; left. repeat split; try done.
    destruct (ORDERS w !! oid) as [b|] eqn:Hb; [|done].
    destruct (OVERRIDES w !! oid) as [s|] eqn:Hov.
    + destruct (parse_status s) as [st|] eqn:Hst.
      * by rewrite (get_order_overridden _ _ _ _ _ Hb Hov Hst) in Hg.
      * by rewrite (get_order_invalid _ _ _ _ Hb Hov Hst) in Hg.
    + by rewrite (get_order_plain _ _ _ Hb Hov) in Hg.
  - right; right. repeat split; try done. by exists o.
  - left. repeat split; try done. by eexists.
Qed.

Lemma cancel_order_result_shape_witness :
  ORDERS Sample.world !! "99999" = None.
Proof.
  destruct (cancel_order_result_shape Sample.world Sample.world "99999"
              (CancelOrderResult.mk false (Some "not_found") None))
    as [(Hok & _) | [(_ & _ & _ & Hnone) | (_ & Hr & _)]].
  - vm_compute. reflexivity.
  - discriminate Hok.
  - exact Hnone.
  - discriminate Hr.
Defined.

(** X25. A user message without any decimal digit is answered by the
    request for an order id, with no tool result and no change of state,
    whether or not it contains "cancel". *)
Theorem fallback_no_digit_prompts (w : World) (l : loc) (ms : list Message)
    (m : Message) :
  heap w !! l = Some ms → last ms = Some m → role m = user →
  no_digit (content m) = true →
  _fallback_chat_turn l w = (Ok (says "Please provide an order ID.", None), w).
Proof.
  intros Hl Hlast Hrole Hnd. rewrite (fallback_last _ _ _ _ Hl Hlast).
  rewrite bool_decide_true by done. simpl.
  assert (re_search_digits (lower (content m)) = None) as ->; [|done].
  apply re_search_digits_None, no_digit_no_token. by rewrite no_digit_lower.
Qed.

Lemma fallback_no_digit_prompts_witness :
  _fallback_chat_turn 1%positive
    (mkWorld (ORDERS Sample.world) ∅ ∅
       {[ 1%positive := [mkMessage user "please cancel my order" None] ]})
  = (Ok (says "Please provide an order ID.", None),
     mkWorld (ORDERS Sample.world) ∅ ∅
       {[ 1%positive := [mkMessage user "please cancel my order" None] ]}).
Proof.
  apply (fallback_no_digit_prompts _ 1%positive
           [mkMessage user "please cancel my order" None]
           (mkMessage user "please cancel my order" None)).
  - vm_compute. reflexivity.
  - reflexivity.
  - reflexivity.
  - vm_compute. reflexivity.
Defined.

(** X26. [get_messages] changes nothing and returns exactly the history
    of the conversation with its tool messages removed: every user and
    assistant message, as often as it occurs and in the order of the
    history, and no tool message. *)
Theorem get_messages_hides_tool (w w' : World) (cid : string)
    (resp : ConversationMessagesResponse.t) :
  get_messages cid w = (Ok resp, w') →
  w' = w
  ∧ Forall (λ m, role m ≠ tool) (ConversationMessagesResponse.messages resp)
  ∧ ∃ conv ms, CONVERSATIONS w !! cid = Some conv
      ∧ heap w !! messages conv = Some ms
      ∧ ConversationMessagesResponse.messages resp
        = filter (λ m, role m ≠ tool) ms.
Proof.
  intros Hget.
  destruct (CONVERSATIONS w !! cid) as [conv|] eqn:Hc;
    [|by rewrite get_messages_unknown in Hget].
  destruct (heap w !! messages conv) as [ms|] eqn:Hl.
  - rewrite (get_messages_run _ _ _ _ Hc Hl) in Hget. simplify_eq/=.
    split; [done|]. split.
    + apply Forall_forall. intros m [Hm _]%list_elem_of_filter.
      intros Ht. rewrite Ht in Hm. by repeat apply elem_of_cons in Hm as [?|Hm];
        [..|apply elem_of_nil in Hm].
    + exists conv, ms. split; [done|]. split; [done|].
      unfold visible. apply list_filter_iff. intros m. split.
      * intros Hm Ht. rewrite Ht in Hm.
        by repeat apply elem_of_cons in Hm as [?|Hm];
          [..|apply elem_of_nil in Hm].
      * intros Hr. destruct (role m); [by left|right; by left|done].
  - unfold get_messages, list_read in Hget. munfold.
    by rewrite Hc, Hl in Hget.
Qed.

Lemma get_messages_hides_tool_witness :
  (get_messages "c1"
     (mkWorld ∅ ∅ Sample.conversations
        {[ 1%positive :=
             [ mkMessage user "status of 12345?" None;
               mkMessage tool "{}" (Some "tool");
               mkMessage assistant "Order 12345 is currently shipped." None;
               mkMessage user "status of 12345?" None;
               mkMessage tool "{}" (Some "tool");
               mkMessage assistant "Order 12345 is currently shipped." None ] ]})).1
  = Ok (ConversationMessagesResponse.mk
          [ mkMessage user "status of 12345?" None;
            mkMessage assistant "Order 12345 is currently shipped." None;
            mkMessage user "status of 12345?" None;
            mkMessage assistant "Order 12345 is currently shipped." None ]).
Proof.
  destruct (get_messages "c1"
     (mkWorld ∅ ∅ Sample.conversations
        {[ 1%positive :=
             [ mkMessage user "status of 12345?" None;
               mkMessage tool "{}" (Some "tool");
               mkMessage assistant "Order 12345 is currently shipped." None;
               mkMessage user "status of 12345?" None;
               mkMessage tool "{}" (Some "tool");
               mkMessage assistant "Order 12345 is currently shipped." None ] ]}))
    as [[resp|e] w'] eqn:Hget; [|vm_compute in Hget; discriminate Hget].
  destruct (get_messages_hides_tool _ _ _ _ Hget)
    as (_ & _ & conv & ms & Hc & Hl & Hresp).
  vm_compute in Hc. injection Hc as <-.
  vm_compute in Hl. injection Hl as <-.
  simpl. destruct resp as [shown]. simpl in Hresp. rewrite Hresp. reflexivity.
Defined.

(** ** The loader on a file with an invalid status *)

(** C9.  The loader does not skip a complete row whose status is not one of
    the three: the construction of its [Order] raises [ValidationError]
    inside the loop, nothing catches it, and the import stops at that row.
    The store then holds the first-seen records of the rows before it and
    none of the rows after it, where skipping the row would have given the
    first-seen records of all the other rows. *)
Theorem load_orders_aborts_on_invalid_status (pre post : list Row) (bad : Row)
    (oid st it : string) (cs : gmap string Conversation)
    (h : gmap loc (list Message)) :
  statuses_valid pre →
  row_fields bad = Some (oid, st, it) → parse_status st = None →
  ∃ w',
    import_orders (Some (pre ++ bad :: post)) cs h = (Raise ValidationError, w')
    ∧ (∀ k o, ORDERS w' !! k = Some o ↔ first_seen pre k o)
    ∧ (statuses_valid post →
       ∃ w'', import_orders (Some (pre ++ post)) cs h = (Ok tt, w'')
         ∧ ∀ k o, ORDERS w'' !! k = Some o ↔ first_seen (pre ++ post) k o).
Proof.
  intros Hv Hf Hs. unfold import_orders, _load_orders. munfold. simpl.
  rewrite for_each_app.
  destruct (for_each_load_row pre (mkWorld ∅ ∅ cs h) Hv)
    as (w1 & Hpre & _ & _ & _ & Hlook).
  rewrite Hpre. simpl. munfold. rewrite (load_row_invalid _ _ _ _ _ Hf Hs).
  exists w1. split; [done|]. split.
  - intros k o. rewrite Hlook. simpl. rewrite lookup_empty.
    split; [by intros [?|[_ ?]] | by right].
  - intros Hvp.
    assert (statuses_valid (pre ++ post)) as Hall.
    { intros r ? ? ? [Hin|Hin]%elem_of_app; [by eapply Hv|by eapply Hvp]. }
    destruct (for_each_load_row (pre ++ post) (mkWorld ∅ ∅ cs h) Hall)
      as (w2 & -> & _ & _ & _ & Hlook2).
    exists w2. split; [done|]. intros k o. rewrite Hlook2. simpl.
    rewrite lookup_empty. split; [by intros [?|[_ ?]] | by right].
Qed.

Lemma load_orders_aborts_on_invalid_status_witness :
  (import_orders
     (Some ([Sample.row "12345" "shipped" "phone";
             Sample.row "12345" "canceled" "tablet"]
            ++ Sample.row "45678" "delivered" "cable"
               :: [Sample.row "56789" "processing" "lamp"])) ∅ ∅).1
  = Raise ValidationError
  ∧ ORDERS (import_orders
              (Some ([Sample.row "12345" "shipped" "phone";
                      Sample.row "12345" "canceled" "tablet"]
                     ++ Sample.row "45678" "delivered" "cable"
                        :: [Sample.row "56789" "processing" "lamp"])) ∅ ∅).2
      !! "56789" = None
  ∧ ORDERS (import_orders
              (Some ([Sample.row "12345" "shipped" "phone";
                      Sample.row "12345" "canceled" "tablet"]
                     ++ [Sample.row "56789" "processing" "lamp"])) ∅ ∅).2
      !! "56789" = Some (mkOrder "56789" processing "lamp").
Proof.
  destruct (load_orders_aborts_on_invalid_status
              [Sample.row "12345" "shipped" "phone";
               Sample.row "12345" "canceled" "tablet"]
              [Sample.row "56789" "processing" "lamp"]
              (Sample.row "45678" "delivered" "cable")
              "45678" "delivered" "cable" ∅ ∅)
    as (w' & Hraise & Hkept & Hskip).
  - intros r oid st it Hin Hf.
    repeat (apply elem_of_cons in Hin as [->|Hin]);
      [vm_compute in Hf; simplify_eq; vm_compute; eauto ..|].
    by apply elem_of_nil in Hin.
  - vm_compute. reflexivity.
  - vm_compute. reflexivity.
  - split; [by rewrite Hraise|]. split.
    + vm_compute. reflexivity.
    + vm_compute. reflexivity.
Defined.
